(** * A shallow embedding of the netconf-async client library

    The model covers the pieces of [netconf-async] that decide the
    behaviour of the NETCONF client: the [AsyncFramer] of
    [framer/async_framer.rs] (1.0 end-of-message framing and 1.1 chunked
    framing over a byte channel), the message types of [message.rs]
    ([Hello], [Rpc] and its Display, [Datastore], [Filter], [RpcReply]) and
    the session logic of [connection.rs].

    Rust strings are modelled by their UTF-8 bytes ([list byte]); a [&str]
    is a byte list that is valid UTF-8. *)

From Stdlib Require Import List Bool Arith NArith ZArith Lia.
From Stdlib Require Import Strings.Byte.
From Stdlib Require Strings.String.
Import String.StringSyntax.
From Stdlib Require DecimalN.
Import ListNotations.

Set Warnings "-register-all".

Open Scope list_scope.
Open Scope string_scope.

(* ------------------------------------------------------------------ *)
(** ** Bytes and Rust string primitives *)

Definition bytes := list byte.

(** Byte value. *)
Definition bv (b : byte) : N := Byte.to_N b.

(** A Rust string literal, as its bytes. *)
Definition B (s : String.string) : bytes := String.list_byte_of_string s.

Definition in_range (lo hi : N) (b : byte) : bool :=
  (lo <=? bv b)%N && (bv b <=? hi)%N.

(** *** [String::from_utf8_lossy]

    Valid sequences are copied; each maximal prefix of a valid sequence that
    cannot be completed (or a byte that starts none) is replaced by U+FFFD,
    as std's [Utf8Chunks] does. *)

Definition REPLACEMENT : bytes := [xef; xbf; xbd].

Definition cont (b : byte) : bool := in_range 128 191 b.

(** Number of bytes of the sequence a lead byte starts (0: not a lead byte). *)
Definition utf8_width (b : byte) : nat :=
  if (bv b <? 128)%N then 1
  else if in_range 194 223 b then 2
  else if in_range 224 239 b then 3
  else if in_range 240 244 b then 4
  else 0.

(** The range allowed for the byte after lead byte [b]. *)
Definition second_ok (b c : byte) : bool :=
  if (bv b =? 224)%N then in_range 160 191 c
  else if (bv b =? 237)%N then in_range 128 159 c
  else if (bv b =? 240)%N then in_range 144 191 c
  else if (bv b =? 244)%N then in_range 128 143 c
  else cont c.

Fixpoint from_utf8_lossy (l : bytes) : bytes :=
  match l with
  | [] => []
  | b :: t =>
    match utf8_width b with
    | 1 => b :: from_utf8_lossy t
    | 2 =>
      match t with
      | c :: t1 =>
        if second_ok b c then b :: c :: from_utf8_lossy t1
        else REPLACEMENT ++ from_utf8_lossy t
      | [] => REPLACEMENT
      end
    | 3 =>
      match t with
      | c :: t1 =>
        if second_ok b c then
          match t1 with
          | d :: t2 =>
            if cont d then b :: c :: d :: from_utf8_lossy t2
            else REPLACEMENT ++ from_utf8_lossy t1
          | [] => REPLACEMENT
          end
        else REPLACEMENT ++ from_utf8_lossy t
      | [] => REPLACEMENT
      end
    | 4 =>
      match t with
      | c :: t1 =>
        if second_ok b c then
          match t1 with
          | d :: t2 =>
            if cont d then
              match t2 with
              | e :: t3 =>
                if cont e then b :: c :: d :: e :: from_utf8_lossy t3
                else REPLACEMENT ++ from_utf8_lossy t2
              | [] => REPLACEMENT
              end
            else REPLACEMENT ++ from_utf8_lossy t1
          | [] => REPLACEMENT
          end
        else REPLACEMENT ++ from_utf8_lossy t
      | [] => REPLACEMENT
      end
    | _ => REPLACEMENT ++ from_utf8_lossy t
    end
  end.

(** [std::str::from_utf8(l).is_ok()]: the bytes of a Rust [String]. *)
Fixpoint valid_utf8 (l : bytes) : bool :=
  match l with
  | [] => true
  | b :: t =>
    match utf8_width b with
    | 1 => valid_utf8 t
    | 2 =>
      match t with
      | c :: t1 => second_ok b c && valid_utf8 t1
      | [] => false
      end
    | 3 =>
      match t with
      | c :: d :: t2 => second_ok b c && cont d && valid_utf8 t2
      | _ => false
      end
    | 4 =>
      match t with
      | c :: d :: e :: t3 => second_ok b c && cont d && cont e && valid_utf8 t3
      | _ => false
      end
    | _ => false
    end
  end.

(** *** [str::trim_end], [str::trim_start], [str::trim]

    The characters removed are those of [char::is_whitespace] (Unicode
    White_Space): U+0009..U+000D, U+0020, U+0085, U+00A0, U+1680,
    U+2000..U+200A, U+2028, U+2029, U+202F, U+205F and U+3000, matched on
    their UTF-8 encodings. *)

Definition ascii_ws (b : byte) : bool := in_range 9 13 b || (bv b =? 32)%N.

Definition ws2 (b1 b2 : byte) : bool :=
  (bv b1 =? 194)%N && ((bv b2 =? 133)%N || (bv b2 =? 160)%N).

Definition ws3 (b1 b2 b3 : byte) : bool :=
  let v1 := bv b1 in let v2 := bv b2 in let v3 := bv b3 in
  ((v1 =? 225) && (v2 =? 154) && (v3 =? 128))%N
  || ((v1 =? 226) && (v2 =? 128) && (in_range 128 138 b3 || (v3 =? 168)
                                      || (v3 =? 169) || (v3 =? 175)))%N
  || ((v1 =? 226) && (v2 =? 129) && (v3 =? 159))%N
  || ((v1 =? 227) && (v2 =? 128) && (v3 =? 128))%N.

(** Trailing whitespace removal on the reversed bytes. *)
Fixpoint trim_rev (r : bytes) : bytes :=
  match r with
  | [] => []
  | b :: r1 =>
    if ascii_ws b then trim_rev r1
    else
      match r1 with
      | c :: r2 =>
        if ws2 c b then trim_rev r2
        else
          match r2 with
          | d :: r3 => if ws3 d c b then trim_rev r3 else r
          | [] => r
          end
      | [] => r
      end
  end.

Definition trim_end (s : bytes) : bytes := rev (trim_rev (rev s)).

Fixpoint trim_start (s : bytes) : bytes :=
  match s with
  | [] => []
  | b :: s1 =>
    if ascii_ws b then trim_start s1
    else
      match s1 with
      | c :: s2 =>
        if ws2 b c then trim_start s2
        else
          match s2 with
          | d :: s3 => if ws3 b c d then trim_start s3 else s
          | [] => s
          end
      | [] => s
      end
  end.

Definition trim (s : bytes) : bytes := trim_end (trim_start s).

(** Decimal rendering of an unsigned integer, as [format!("{}", n)]. *)
Fixpoint uint_bytes (d : Decimal.uint) : bytes :=
  match d with
  | Decimal.Nil => []
  | Decimal.D0 d => x30 :: uint_bytes d
  | Decimal.D1 d => x31 :: uint_bytes d
  | Decimal.D2 d => x32 :: uint_bytes d
  | Decimal.D3 d => x33 :: uint_bytes d
  | Decimal.D4 d => x34 :: uint_bytes d
  | Decimal.D5 d => x35 :: uint_bytes d
  | Decimal.D6 d => x36 :: uint_bytes d
  | Decimal.D7 d => x37 :: uint_bytes d
  | Decimal.D8 d => x38 :: uint_bytes d
  | Decimal.D9 d => x39 :: uint_bytes d
  end.

Definition dec_bytes (n : N) : bytes := uint_bytes (N.to_uint n).

Definition is_ascii_digit (b : byte) : bool := in_range 48 57 b.


(* ------------------------------------------------------------------ *)
(** ** Message types used by the error type ([message.rs]) *)

Inductive ErrorType := Transport | Rpc_ | Protocol | App.
Inductive ErrorSeverity := Error_ | Warning.
Inductive ErrorTag :=
  InUse | InvalidValue | TooBig | MissingAttribute | BadAttribute
| UnknownAttribute | MissingElement | BadElement | UnknownElement
| UnknownNamespace | AccessDenied | LockDenied | ResourceDenied
| RollbackFailed | DataExists | DataMissing | OperationNotSupported
| OperationFailed | PartialOperation | MalformedMessage.

Record ErrorInfo := mkErrorInfo {
  bad_element : option bytes;
  bad_attribute : option bytes;
  bad_namespace : option bytes;
  ok_element : option bytes;
  err_element : option bytes;
  noop_element : option bytes;
  info_session_id : option N
}.

(** [struct Error], the [rpc-error] record. *)
Record Error := mkError {
  error_severity : ErrorSeverity;
  error_type : ErrorType;
  error_tag : ErrorTag;
  error_app_tag : option bytes;
  error_path : option bytes;
  error_message : option bytes;
  error_info : option ErrorInfo
}.

Record RpcReply := mkRpcReply {
  message_id : bytes;
  rpc_error : option (list Error);
  ok : option unit
}.

Definition is_ok (r : RpcReply) : bool :=
  match ok r, rpc_error r with Some _, None => true | _, _ => false end.

Definition has_errors (r : RpcReply) : bool :=
  match rpc_error r with Some _ => true | None => false end.

(* ------------------------------------------------------------------ *)
(** ** [error.rs] *)

(** [IoOther]: any other [std::io::Error]. *)
Inductive IoError := UnexpectedEof | IoOther.

Inductive NetconfClientError :=
| Io (e : IoError)
| SerializingFailure                   (* quick_xml::DeError *)
| Netconf (reply : RpcReply)
| UnknownDatastore (expected : list bytes) (unknown : bytes)
| MalformedChunk (expected actual : byte) (* [u8 as char] *)
| Anyhow (msg : bytes).

Inductive result (A : Type) :=
| Ok (a : A)
| Err (e : NetconfClientError).
Arguments Ok {A} a.
Arguments Err {A} e.

(* ------------------------------------------------------------------ *)
(** ** The byte channel

    The SSH channel's pending input is a list of segments, each the bytes one
    [AsyncRead::read] call can deliver at most (a segment as the transport
    hands it over).  An empty segment is a read that returns 0 bytes, i.e.
    end of stream.  Reading from the in-memory channel does not fail
    otherwise; writes append to [outbox]. *)

Definition chan := list bytes.

Definition chan_bytes (c : chan) : bytes := concat c.
Definition chan_size (c : chan) : nat := length (chan_bytes c).

(** Put back the unread part of a segment. *)
Definition push (s : bytes) (c : chan) : chan :=
  match s with [] => c | _ => s :: c end.

(** [AsyncReadExt::read_exact]: read until [n] bytes are filled, across
    segments; at end of stream the call fails with [UnexpectedEof] (having
    consumed everything). *)
Fixpoint read_exact (n : nat) (c : chan) : chan * result bytes :=
  match c with
  | [] => if Nat.eqb n 0 then ([], Ok []) else ([], Err (Io UnexpectedEof))
  | s :: c' =>
    if Nat.leb n (length s) then (push (skipn n s) c', Ok (firstn n s))
    else
      match read_exact (n - length s) c' with
      | (c'', Ok bs) => (c'', Ok (s ++ bs))
      | (c'', Err e) => (c'', Err e)
      end
  end.

(** [AsyncReadExt::read] into a [[0u8; 256]] buffer: at most 256 bytes of
    the next segment. *)
Definition read_256 (c : chan) : chan * bytes :=
  match c with
  | [] => ([], [])
  | s :: c' => (push (skipn 256 s) c', firstn 256 s)
  end.

(* ------------------------------------------------------------------ *)
(** ** [AsyncFramer] ([framer/async_framer.rs], [framer.rs]) *)

Definition NETCONF_1_0_TERMINATOR : bytes := B "]]>]]>".

Record Framer := mkFramer {
  read_buffer : bytes;
  upgraded : bool;
  inbox : chan;
  outbox : bytes
}.

Definition new_framer (c : chan) : Framer := mkFramer [] false c [].

Definition upgrade (f : Framer) : Framer :=
  mkFramer (read_buffer f) true (inbox f) (outbox f).

(** [u32] arithmetic of [chunk_size * 10 + digit] (overflow checks off,
    as in a release build: wrapping). *)
Definition u32_wrap (n : N) : N := (n mod 2 ^ 32)%N.

(** The digit loop of [read_header], after the leading ["\n#"].  The fuel
    is never exhausted when it exceeds the number of pending bytes (each
    round consumes one byte); [None] stands for "does not return". *)
Fixpoint header_loop (fuel : nat) (chunk_size : N) (c : chan)
  : option (chan * result N) :=
  match fuel with
  | O => None
  | S fuel' =>
    match read_exact 1 c with
    | (c1, Err e) => Some (c1, Err e)
    | (c1, Ok buffer) =>
      let last_read := hd x00 buffer in
      if Byte.eqb last_read x23 then header_loop fuel' chunk_size c1
      else if Byte.eqb last_read x0a then Some (c1, Ok chunk_size)
      else if negb (is_ascii_digit last_read) then
        Some (c1, Err (MalformedChunk x30 last_read))
      else header_loop fuel' (u32_wrap (chunk_size * 10 + (bv last_read - 48))) c1
    end
  end.

Definition read_header (c : chan) : option (chan * result N) :=
  match read_exact 2 c with
  | (c1, Err e) => Some (c1, Err e)
  | (c1, Ok buffer) =>
    let b0 := nth 0 buffer x00 in
    let b1 := nth 1 buffer x00 in
    if negb (Byte.eqb b0 x0a) then Some (c1, Err (MalformedChunk x0a b0))
    else if negb (Byte.eqb b1 x23) then Some (c1, Err (MalformedChunk x23 b1))
    else header_loop (S (chan_size c1)) 0 c1
  end.

(** The chunk loop of [read_async] in 1.1 mode; returns the read buffer, the
    channel, and the error that ended the loop if any. *)
Fixpoint chunk_loop (fuel : nat) (rb : bytes) (c : chan)
  : option (bytes * chan * option NetconfClientError) :=
  match fuel with
  | O => None
  | S fuel' =>
    match read_header c with
    | None => None
    | Some (c1, Err e) => Some (rb, c1, Some e)
    | Some (c1, Ok chunk_size) =>
      if (chunk_size =? 0)%N then Some (rb, c1, None)
      else
        match read_exact (N.to_nat chunk_size) c1 with
        | (c2, Err e) => Some (rb, c2, Some e)
        | (c2, Ok buffer) => chunk_loop fuel' (rb ++ buffer) c2
        end
    end
  end.

(** [TwoWaySearcher::search_in]: index of the first occurrence. *)
Fixpoint prefixb (p l : bytes) : bool :=
  match p, l with
  | [], _ => true
  | a :: p', b :: l' => Byte.eqb a b && prefixb p' l'
  | _ :: _, [] => false
  end.

Fixpoint search_in (p l : bytes) : option nat :=
  if prefixb p l then Some 0
  else match l with
       | [] => None
       | _ :: l' => option_map S (search_in p l')
       end.

(** The [while search.search_in(&self.read_buffer).is_none()] loop of 1.0
    mode.  A read returning 0 bytes (end of stream) makes the loop spin
    forever: [None]. *)
Fixpoint eof_loop (fuel : nat) (rb : bytes) (c : chan) : option (bytes * chan) :=
  match search_in NETCONF_1_0_TERMINATOR rb with
  | Some _ => Some (rb, c)
  | None =>
    match fuel with
    | O => None
    | S fuel' =>
      match read_256 c with
      | (_, []) => None
      | (c1, buffer) => eof_loop fuel' (rb ++ buffer) c1
      end
    end
  end.

Definition read_async (f : Framer) : option (Framer * result bytes) :=
  if upgraded f then
    match chunk_loop (S (chan_size (inbox f))) (read_buffer f) (inbox f) with
    | None => None
    | Some (rb, c, Some e) => Some (mkFramer rb true c (outbox f), Err e)
    | Some (rb, c, None) =>
      Some (mkFramer [] true c (outbox f), Ok (trim_end (from_utf8_lossy rb)))
    end
  else
    match eof_loop (S (chan_size (inbox f))) (read_buffer f) (inbox f) with
    | None => None
    | Some (rb, c) =>
      match search_in NETCONF_1_0_TERMINATOR rb with
      | None => None
      | Some pos =>
        Some (mkFramer (skipn (pos + 6) rb) false c (outbox f),
              Ok (trim_end (from_utf8_lossy (firstn pos rb))))
      end
    end.

Definition write_async (f : Framer) (rpc : bytes) : Framer * result unit :=
  let out :=
    if upgraded f then
      [x0a; x23] ++ dec_bytes (N.of_nat (length rpc)) ++ [x0a]
      ++ rpc ++ B "
##
"
    else rpc ++ NETCONF_1_0_TERMINATOR in
  (mkFramer (read_buffer f) (upgraded f) (inbox f) (outbox f ++ out), Ok tt).

(** The same byte stream: what the framer wrote, delivered back in the
    given segments. *)
Definition loopback (segs : chan) : Framer := mkFramer [] true segs [].

(** The value the digit loop accumulates over a run of digits. *)
Definition digits_value (k : N) (ds : bytes) : N :=
  fold_left (fun acc d => u32_wrap (acc * 10 + (bv d - 48))) ds k.

(** The digit loop without the [u32] wrap. *)
Definition plain_value (k : N) (ds : bytes) : N :=
  fold_left (fun acc d => acc * 10 + (bv d - 48))%N ds k.

(** The bytes [write_async] emits for [rpc] in 1.1 mode. *)
Definition chunked_frame (rpc : bytes) : bytes :=
  [x0a; x23] ++ dec_bytes (N.of_nat (length rpc)) ++ [x0a] ++ rpc ++ [x0a; x23; x23; x0a].

(** Bytes delivered one per read. *)
Definition one_byte_segments (l : bytes) : chan := map (fun b => [b]) l.

Definition written_chunked (M : bytes) : bytes :=
  outbox (fst (write_async (mkFramer [] true [] []) M)).

(* ------------------------------------------------------------------ *)
(** ** XML writing: [quick_xml::escape] and the serializer

    Byte lists are compared with [beq].  The serializer escapes text with
    its default quote level: [&], [<] and [>] in text, and in attribute
    values (written between double quotes) also the double quote. *)

Definition beq (a b : bytes) : bool :=
  if list_eq_dec Byte.byte_eq_dec a b then true else false.

Definition escape_byte (attr : bool) (b : byte) : bytes :=
  if Byte.eqb b x26 then B "&amp;"
  else if Byte.eqb b x3c then B "&lt;"
  else if Byte.eqb b x3e then B "&gt;"
  else if attr && Byte.eqb b x22 then B "&quot;"
  else [b].

Definition escape (t : bytes) : bytes := flat_map (escape_byte false) t.
Definition escape_attr (t : bytes) : bytes := flat_map (escape_byte true) t.

(** *** [quick_xml::escape::unescape]

    The five predefined entities and decimal ([&#N;]) or hexadecimal
    ([&#xH;]) character references.  [None] is its error (an entity without
    [;], an unknown entity, or a reference that is no character), on which
    the caller's [unwrap] panics. *)

Definition dec_digit (b : byte) : option N :=
  if is_ascii_digit b then Some (bv b - 48)%N else None.

Definition hex_digit (b : byte) : option N :=
  if is_ascii_digit b then Some (bv b - 48)%N
  else if in_range 97 102 b then Some (bv b - 87)%N
  else if in_range 65 70 b then Some (bv b - 55)%N
  else None.

Fixpoint radix_value (radix : N) (digit : byte -> option N) (acc : N) (l : bytes)
  : option N :=
  match l with
  | [] => Some acc
  | b :: l' =>
    match digit b with
    | Some d => radix_value radix digit (acc * radix + d)%N l'
    | None => None
    end
  end.

Definition byte_of (n : N) : byte :=
  match Byte.of_N n with Some b => b | None => x00 end.

(** The UTF-8 encoding of a scalar value. *)
Definition utf8_encode (c : N) : bytes :=
  if (c <? 128)%N then [byte_of c]
  else if (c <? 2048)%N then [byte_of (192 + c / 64); byte_of (128 + c mod 64)]%N
  else if (c <? 65536)%N then
    [byte_of (224 + c / 4096); byte_of (128 + (c / 64) mod 64);
     byte_of (128 + c mod 64)]%N
  else
    [byte_of (240 + c / 262144); byte_of (128 + (c / 4096) mod 64);
     byte_of (128 + (c / 64) mod 64); byte_of (128 + c mod 64)]%N.

(** [char::from_u32], refusing also the NUL character. *)
Definition char_ref (code : N) : option bytes :=
  if ((code =? 0) || ((55296 <=? code) && (code <=? 57343)) || (1114111 <? code))%N
  then None
  else Some (utf8_encode code).

Definition resolve_entity (name : bytes) : option bytes :=
  if beq name (B "lt") then Some [x3c]
  else if beq name (B "gt") then Some [x3e]
  else if beq name (B "amp") then Some [x26]
  else if beq name (B "apos") then Some [x27]
  else if beq name (B "quot") then Some [x22]
  else
    match name with
    | b :: num =>
      if Byte.eqb b x23 then
        let code :=
          match num with
          | c :: hex =>
            if Byte.eqb c x78 then radix_value 16 hex_digit 0 hex
            else radix_value 10 dec_digit 0 num
          | [] => radix_value 10 dec_digit 0 []
          end in
        match code with Some n => char_ref n | None => None end
      else None
    | [] => None
    end.

(** The scan: [ent] holds the (reversed) name of an entity being read. *)
Fixpoint unescape_go (l : bytes) (ent : option bytes) : option bytes :=
  match l with
  | [] => match ent with None => Some [] | Some _ => None end
  | b :: t =>
    match ent with
    | None =>
      if Byte.eqb b x26 then unescape_go t (Some [])
      else option_map (cons b) (unescape_go t None)
    | Some acc =>
      if Byte.eqb b x3b then
        match resolve_entity (rev acc) with
        | Some r => option_map (app r) (unescape_go t None)
        | None => None
        end
      else unescape_go t (Some (b :: acc))
    end
  end.

Definition unescape (l : bytes) : option bytes := unescape_go l None.

(** *** The serializer ([quick_xml::se])

    It writes into a [String] buffer: literal markup, escaped text and
    escaped attribute values. *)

Inductive piece := Lit (b : bytes) | Txt (t : bytes) | Att (t : bytes).

Definition write_piece (p : piece) : bytes :=
  match p with Lit b => b | Txt t => escape t | Att t => escape_attr t end.

Definition buffer_of (ps : list piece) : bytes := flat_map write_piece ps.

(** What a serde value becomes: a leaf field written inline
    ([<name>text</name>], or [<name/>] when empty), an element with
    attributes and children (a struct, or a unit variant without any), and
    the text of a [$value] or [$text] field. *)
Inductive snode :=
| SLeaf (name text : bytes)
| SElem (name : bytes) (attrs : list (bytes * bytes)) (kids : list snode)
| SText (text : bytes).

(** [ser.indent(' ', 2)]: each child on a line of its own. *)
Definition indent_of (ind : bool) (lvl : nat) : bytes :=
  if ind then x0a :: repeat x20 (2 * lvl) else [].

Definition attr_pieces (a : bytes * bytes) : list piece :=
  [Lit ([x20] ++ fst a ++ [x3d; x22]); Att (snd a); Lit [x22]].

(** The children of an element, each written by [r] after its indent; an
    empty text writes nothing. *)
Fixpoint kid_pieces (r : snode -> list piece) (ind : bool) (lvl : nat) (ks : list snode)
  : list piece :=
  match ks with
  | [] => []
  | SText [] :: ks' => kid_pieces r ind lvl ks'
  | k :: ks' => Lit (indent_of ind lvl) :: r k ++ kid_pieces r ind lvl ks'
  end.

(** An element whose children write nothing (no child, or only empty text)
    is closed with [/>]. *)
Fixpoint render (ind : bool) (lvl : nat) (n : snode) : list piece :=
  match n with
  | SLeaf name [] => [Lit (B "<" ++ name ++ B "/>")]
  | SLeaf name t => [Lit (B "<" ++ name ++ B ">"); Txt t; Lit (B "</" ++ name ++ B ">")]
  | SText t => [Txt t]
  | SElem name attrs kids =>
    let children := kid_pieces (render ind (S lvl)) ind (S lvl) kids in
    Lit (B "<" ++ name) :: flat_map attr_pieces attrs ++
    match children with
    | [] => [Lit (B "/>")]
    | _ => Lit (B ">") :: children ++ [Lit (indent_of ind lvl ++ B "</" ++ name ++ B ">")]
    end
  end.


(* ------------------------------------------------------------------ *)
(** ** The messages of [message.rs] *)

Definition NETCONF_URN : bytes := B "urn:ietf:params:xml:ns:netconf:base:1.0".
Definition NETCONF_BASE_10_CAP : bytes := B "urn:ietf:params:netconf:base:1.0".
Definition NETCONF_BASE_11_CAP : bytes := B "urn:ietf:params:netconf:base:1.1".

Inductive Datastore := Candidate | Running | Startup | Url (u : bytes).

Inductive WithDefaultsValue := ReportAll | ReportAllTagged | Trim | Explicit.

Record WithDefaults := mkWithDefaults {
  wd_xmlns : bytes;
  value : WithDefaultsValue
}.

Record Filter := mkFilter {
  filter_type : bytes;
  filter : bytes
}.

Inductive RpcOperation :=
| CloseSession
| KillSession (session_id : N)
| Validate (source : Datastore)
| GetConfig (source : Datastore) (filter : option Filter)
            (with_defaults : option WithDefaults)
| Get (filter : option Filter) (with_defaults : option WithDefaults)
| Commit (confirmed : option unit) (confirm_timeout : option Z)
         (persist persist_id : option bytes)
| CreateSubscription (xmlns : bytes) (stream : option bytes)
                     (filter : option Filter) (start_time stop_time : option bytes).

(** [message_id] is [Uuid::new_v4().to_string()]: an argument here. *)
Record Rpc := mkRpc {
  rpc_message_id : bytes;
  rpc_xmlns : bytes;
  operation : RpcOperation
}.

Definition new_with_operation (message_id : bytes) (op : RpcOperation) : Rpc :=
  mkRpc message_id NETCONF_URN op.

Definition WITH_DEFAULTS_NS : bytes :=
  B "urn:ietf:params:xml:ns:yang:ietf-netconf-with-defaults".

Definition new_get_config (datastore : Datastore) (filter : option Filter)
  (defaults : option WithDefaultsValue) : RpcOperation :=
  GetConfig datastore filter (option_map (mkWithDefaults WITH_DEFAULTS_NS) defaults).

Definition new_get (filter : option Filter) (defaults : option WithDefaultsValue)
  : RpcOperation :=
  Get filter (option_map (mkWithDefaults WITH_DEFAULTS_NS) defaults).

Definition new_commit (confirmed : option unit) (confirm_timeout : option Z)
  (persist persist_id : option bytes) : RpcOperation :=
  Commit confirmed confirm_timeout persist persist_id.

(** *** Serialization (the serde derives) *)

Definition opt_node {A : Type} (f : A -> snode) (o : option A) : list snode :=
  match o with Some a => [f a] | None => [] end.

(** [i32] as [format!("{}")]. *)
Definition z_bytes (z : Z) : bytes :=
  match z with Z.neg p => x2d :: dec_bytes (N.pos p) | _ => dec_bytes (Z.to_N z) end.

Definition datastore_node (d : Datastore) : snode :=
  match d with
  | Candidate => SElem (B "candidate") [] []
  | Running => SElem (B "running") [] []
  | Startup => SElem (B "startup") [] []
  | Url u => SLeaf (B "url") u
  end.

Definition source_node (d : Datastore) : snode := SElem (B "source") [] [datastore_node d].

Definition filter_node (f : Filter) : snode :=
  SElem (B "filter") [(B "type", filter_type f)] [SText (filter f)].

Definition with_defaults_value_name (v : WithDefaultsValue) : bytes :=
  match v with
  | ReportAll => B "report-all"
  | ReportAllTagged => B "report-all-tagged"
  | Trim => B "trim"
  | Explicit => B "explicit"
  end.

Definition with_defaults_node (w : WithDefaults) : snode :=
  SElem (B "with-defaults") [(B "xmlns", wd_xmlns w)]
        [SText (with_defaults_value_name (value w))].

Definition operation_node (op : RpcOperation) : snode :=
  match op with
  | CloseSession => SElem (B "close-session") [] []
  | KillSession sid => SElem (B "kill-session") [] [SLeaf (B "session-id") (dec_bytes sid)]
  | Validate ds => SElem (B "validate") [] [source_node ds]
  | GetConfig ds f w =>
    SElem (B "get-config") []
          (source_node ds :: opt_node filter_node f ++ opt_node with_defaults_node w)
  | Get f w =>
    SElem (B "get") [] (opt_node filter_node f ++ opt_node with_defaults_node w)
  | Commit c t p pid =>
    SElem (B "commit") []
          (opt_node (fun _ => SElem (B "confirmed") [] []) c
           ++ opt_node (fun t => SLeaf (B "confirm-timeout") (z_bytes t)) t
           ++ opt_node (SLeaf (B "persist")) p
           ++ opt_node (SLeaf (B "persist-id")) pid)
  | CreateSubscription x s f st sp =>
    SElem (B "create-subscription") [(B "xmlns", x)]
          (opt_node (SLeaf (B "stream")) s ++ opt_node filter_node f
           ++ opt_node (SLeaf (B "startTime")) st ++ opt_node (SLeaf (B "stopTime")) sp)
  end.

Definition rpc_node (r : Rpc) : snode :=
  SElem (B "rpc") [(B "message-id", rpc_message_id r); (B "xmlns", rpc_xmlns r)]
        [operation_node (operation r)].

(** [impl Display for Rpc]: serialized with a 2-space indent; for
    [get-config] and [get] the whole buffer is then unescaped.  [None] is
    the panic of [unescape(..).unwrap()]. *)
Definition rpc_to_string (r : Rpc) : option bytes :=
  let buffer := buffer_of (render true 0 (rpc_node r)) in
  match operation r with
  | GetConfig _ _ _ | Get _ _ => unescape buffer
  | _ => Some buffer
  end.

(** *** [Hello] *)

Record Hello := mkHello {
  hello_xmlns : bytes;
  capability : list bytes;
  hello_session_id : option N
}.

Definition Hello_new : Hello :=
  mkHello NETCONF_URN [NETCONF_BASE_10_CAP; NETCONF_BASE_11_CAP] None.

Definition has_capability (h : Hello) (c : bytes) : bool :=
  existsb (fun cap => beq cap c) (capability h).

Definition hello_node (h : Hello) : snode :=
  SElem (B "hello") [(B "xmlns", hello_xmlns h)]
        (SElem (B "capabilities") [] (map (SLeaf (B "capability")) (capability h))
         :: opt_node (fun n => SLeaf (B "session-id") (dec_bytes n)) (hello_session_id h)).

(** [impl Display for Hello]: no indentation. *)
Definition hello_to_string (h : Hello) : bytes :=
  buffer_of (render false 0 (hello_node h)).


(** *** [impl FromStr for Datastore]

    [str::to_lowercase] (Unicode) is an argument of the section; on ASCII
    text it is [ascii_lowercase]. *)

Definition ascii_lowercase (b : byte) : byte :=
  if in_range 65 90 b then byte_of (bv b + 32) else b.

Definition starts_with (s p : bytes) : bool := prefixb p s.

(** [NetconfClientError::new]. *)
Definition NetconfClientError_new (msg : bytes) : NetconfClientError := Anyhow msg.

Section Lowercase.

Variable to_lowercase : bytes -> bytes.

Definition datastore_from_str (s : bytes) : result Datastore :=
  let datastore := to_lowercase s in
  if beq datastore (B "running") then Ok Running
  else if beq datastore (B "candidate") then Ok Candidate
  else if beq datastore (B "startup") then Ok Startup
  else if starts_with datastore (B "http") || starts_with datastore (B "file")
          || starts_with datastore (B "ftp")
  then Ok (Url datastore)
  else Err (UnknownDatastore [B "running"; B "candidate"; B "startup"; B "ftp|http|file"]
                             datastore).

(** [impl FromStr for WithDefaultsValue]; the error is
    [NetconfClientError::new(format!(..))], whose message quotes the input
    as given. *)
Definition with_defaults_from_str (s : bytes) : result WithDefaultsValue :=
  let defaults := to_lowercase s in
  if beq defaults (B "report-all") then Ok ReportAll
  else if beq defaults (B "report-all-tagged") then Ok ReportAllTagged
  else if beq defaults (B "trim") then Ok Trim
  else if beq defaults (B "explicit") then Ok Explicit
  else Err (NetconfClientError_new (B "unknown with-defaults value: " ++ s)).

End Lowercase.

(** *** [Filter::subtree] and [Filter::strip_slashes]

    [strip_slashes] walks the [char]s of the trimmed string; a [\] takes the
    next [char] verbatim.  On the bytes of a valid UTF-8 string this is the
    walk below: [\] is ASCII, so it is never part of a multi-byte sequence,
    and taking the lead byte of a sequence after a [\] leaves its
    continuation bytes (never [\]) to be copied one by one. *)

Fixpoint strip_go (l : bytes) : option bytes :=
  match l with
  | [] => Some []
  | c :: t =>
    if Byte.eqb c x5c then
      match t with
      | [] => None
      | c' :: t' => option_map (cons c') (strip_go t')
      end
    else option_map (cons c) (strip_go t)
  end.

Definition strip_slashes (s : bytes) : option bytes := strip_go (trim s).

(** [None] is the panic of [strip_slashes(filter).unwrap()]. *)
Definition subtree (f : bytes) : option Filter :=
  match strip_slashes f with
  | Some n => Some (mkFilter (B "subtree") (trim n))
  | None => None
  end.

(* ------------------------------------------------------------------ *)
(** ** XML reading: [quick_xml::de::from_str]

    The parser's result is a tree whose text is unescaped and from which
    whitespace-only text is dropped; the parser itself is an argument of
    the session section below.  The decoders follow the serde derives of
    [RpcReply], [Error], [ErrorInfo] and [Hello]: the root element's name is
    not checked, unknown children and attributes are skipped, a missing
    non-[Option] field or a repeated non-sequence field fails, a sequence
    field ([Vec]) takes the elements of its name, which must be consecutive
    (a second run is a duplicate field), and a [()] field is an empty
    element. *)

Inductive xml :=
| Elem (name : bytes) (attrs : list (bytes * bytes)) (kids : list xml)
| Text (t : bytes).

Definition named (n : bytes) (x : xml) : bool :=
  match x with Elem m _ _ => beq m n | Text _ => false end.

Definition kids_of (x : xml) : list xml :=
  match x with Elem _ _ ks => ks | Text _ => [] end.

Definition attr (n : bytes) (x : xml) : option bytes :=
  match x with
  | Elem _ a _ => option_map snd (find (fun p => beq (fst p) n) a)
  | Text _ => None
  end.

(** The text of a leaf element ([String] fields and enum variants). *)
Definition text_of (x : xml) : option bytes :=
  match x with
  | Elem _ _ [] => Some []
  | Elem _ _ [Text t] => Some t
  | _ => None
  end.

Definition field (n : bytes) (ks : list xml) : option (option xml) :=
  match List.filter (named n) ks with
  | [] => Some None
  | [x] => Some (Some x)
  | _ => None
  end.

(** The number of maximal runs of consecutive elements named [n]. *)
Fixpoint runs (n : bytes) (in_run : bool) (ks : list xml) : nat :=
  match ks with
  | [] => 0
  | k :: ks' =>
    if named n k then (if in_run then runs n true ks' else S (runs n true ks'))
    else runs n false ks'
  end.

Definition seq_field (n : bytes) (ks : list xml) : option (option (list xml)) :=
  match List.filter (named n) ks with
  | [] => Some None
  | xs => if Nat.leb (runs n false ks) 1 then Some (Some xs) else None
  end.

Definition required {A : Type} (o : option (option xml)) (f : xml -> option A)
  : option A :=
  match o with Some (Some x) => f x | _ => None end.

Definition optional {A : Type} (o : option (option xml)) (f : xml -> option A)
  : option (option A) :=
  match o with
  | Some None => Some None
  | Some (Some x) => option_map Some (f x)
  | None => None
  end.

Fixpoint traverse {A C : Type} (f : A -> option C) (l : list A) : option (list C) :=
  match l with
  | [] => Some []
  | a :: l' =>
    match f a, traverse f l' with
    | Some c, Some cs => Some (c :: cs)
    | _, _ => None
    end
  end.

Definition enum_of {A : Type} (table : list (bytes * A)) (x : xml) : option A :=
  match text_of x with
  | Some t => option_map snd (find (fun p => beq (fst p) t) table)
  | None => None
  end.

(** [u64::from_str]: an optional [+] and decimal digits, below [2^64]. *)
Definition parse_u64 (t : bytes) : option N :=
  let ds := match t with c :: r => if Byte.eqb c x2b then r else t | [] => t end in
  match ds with
  | [] => None
  | _ =>
    match radix_value 10 dec_digit 0 ds with
    | Some n => if (n <? 2 ^ 64)%N then Some n else None
    | None => None
    end
  end.

Definition u64_of (x : xml) : option N :=
  match text_of x with Some t => parse_u64 t | None => None end.

Definition unit_of (x : xml) : option unit :=
  match text_of x with Some [] => Some tt | _ => None end.


(** *** The reply decoders *)

Definition severity_table : list (bytes * ErrorSeverity) :=
  [(B "error", Error_); (B "warning", Warning)].

Definition type_table : list (bytes * ErrorType) :=
  [(B "transport", Transport); (B "rpc", Rpc_); (B "protocol", Protocol); (B "app", App)].

Definition tag_table : list (bytes * ErrorTag) :=
  [(B "in-use", InUse); (B "invalid-value", InvalidValue); (B "too-big", TooBig);
   (B "missing-attribute", MissingAttribute); (B "bad-attribute", BadAttribute);
   (B "unknown-attribute", UnknownAttribute); (B "missing-element", MissingElement);
   (B "bad-element", BadElement); (B "unknown-element", UnknownElement);
   (B "unknown-namespace", UnknownNamespace); (B "access-denied", AccessDenied);
   (B "lock-denied", LockDenied); (B "resource-denied", ResourceDenied);
   (B "rollback-failed", RollbackFailed); (B "data-exists", DataExists);
   (B "data-missing", DataMissing); (B "operation-not-supported", OperationNotSupported);
   (B "operation-failed", OperationFailed); (B "partial-operation", PartialOperation);
   (B "malformed-message", MalformedMessage)].

Definition decode_error_info (x : xml) : option ErrorInfo :=
  let ks := kids_of x in
  match optional (field (B "bad-element") ks) text_of,
        optional (field (B "bad-attribute") ks) text_of,
        optional (field (B "bad-namespace") ks) text_of,
        optional (field (B "ok-element") ks) text_of,
        optional (field (B "err-element") ks) text_of,
        optional (field (B "noop-element") ks) text_of,
        optional (field (B "session-id") ks) u64_of with
  | Some a, Some b, Some c, Some d, Some e, Some f, Some g =>
    Some (mkErrorInfo a b c d e f g)
  | _, _, _, _, _, _, _ => None
  end.

Definition decode_error (x : xml) : option Error :=
  let ks := kids_of x in
  match required (field (B "error-severity") ks) (enum_of severity_table),
        required (field (B "error-type") ks) (enum_of type_table),
        required (field (B "error-tag") ks) (enum_of tag_table),
        optional (field (B "error-app-tag") ks) text_of,
        optional (field (B "error-path") ks) text_of,
        optional (field (B "error-message") ks) text_of,
        optional (field (B "error-info") ks) decode_error_info with
  | Some s, Some ty, Some tg, Some a, Some p, Some m, Some i =>
    Some (mkError s ty tg a p m i)
  | _, _, _, _, _, _, _ => None
  end.

(** [RpcReply]: [@message-id], [rpc-error: Option<Vec<Error>>] (absent:
    [None]), [ok: Option<()>]. *)
Definition decode_rpc_reply (x : xml) : option RpcReply :=
  match x with
  | Text _ => None
  | Elem _ _ ks =>
    match attr (B "message-id") x, seq_field (B "rpc-error") ks,
          optional (field (B "ok") ks) unit_of with
    | Some mid, Some errs, Some okv =>
      match errs with
      | None => Some (mkRpcReply mid None okv)
      | Some xs =>
        match traverse decode_error xs with
        | Some es => Some (mkRpcReply mid (Some es) okv)
        | None => None
        end
      end
    | _, _, _ => None
    end
  end.

(** [Hello]: [@xmlns], [capabilities] with [capability: Vec<String>],
    [session-id: Option<u64>]. *)
Definition decode_hello (x : xml) : option Hello :=
  match x with
  | Text _ => None
  | Elem _ _ ks =>
    match attr (B "xmlns") x, field (B "capabilities") ks,
          optional (field (B "session-id") ks) u64_of with
    | Some xmlns, Some (Some caps), Some sid =>
      match seq_field (B "capability") (kids_of caps) with
      | Some (Some cs) =>
        match traverse text_of cs with
        | Some l => Some (mkHello xmlns l sid)
        | None => None
        end
      | _ => None
      end
    | _, _, _ => None
    end
  end.

(* ------------------------------------------------------------------ *)
(** ** [Connection] ([connection.rs])

    The transport is the SSH transport's [AsyncFramer] over its channel:
    [write_and_receive] is [write_async] followed by [read_async], and
    [receive] is [read_async]. *)

Record Connection := mkConnection {
  transport : Framer;
  session_id : option N;
  skip_serializing : bool;
  is_closed : bool
}.

Definition with_transport (c : Connection) (f : Framer) : Connection :=
  mkConnection f (session_id c) (skip_serializing c) (is_closed c).

Definition set_skip_serializing (c : Connection) : Connection :=
  mkConnection (transport c) (session_id c) true (is_closed c).

Definition set_closed (c : Connection) : Connection :=
  mkConnection (transport c) (session_id c) (skip_serializing c) true.

Definition write_and_receive (f : Framer) (rpc : bytes) : option (Framer * result bytes) :=
  match write_async f rpc with
  | (f1, Err e) => Some (f1, Err e)
  | (f1, Ok _) => read_async f1
  end.

(** The [Call]s: the public operations that go through [run_rpc]. *)
Inductive Call :=
| GetConfigCall (datastore : Datastore) (filter : option Filter)
                (defaults : option WithDefaultsValue)
| GetCall (filter : option Filter) (defaults : option WithDefaultsValue)
| ValidateCall (datastore : Datastore)
| CommitCall
| ConfirmedCommitCall (confirm_timeout : option Z) (persist persist_id : option bytes)
| CloseSessionCall
| KillSessionCall (session_id : N).

(** The states a [read_async] cancelled halfway can leave: some input
    consumed, the read buffer grown (a partly filled [read_exact] buffer is
    lost), the mode and the written bytes unchanged; or, when the read had
    completed and the [send] was cancelled, the state after the read. *)
Inductive interrupted (f : Framer) : Framer -> Prop :=
| Int_reading (p q : bytes) (c' : chan) :
    chan_bytes (inbox f) = p ++ chan_bytes c' ->
    interrupted f (mkFramer (read_buffer f ++ q) (upgraded f) c' (outbox f))
| Int_sending (f1 : Framer) (resp : bytes) :
    read_async f = Some (f1, Ok resp) -> interrupted f f1.

(** What [signal::ctrl_c()] resolves to: [Ok(())], or an I/O error that
    the select returns as [Io]. *)
Definition ctrl_c_result (r : result unit) : Prop := r = Ok tt \/ r = Err (Io IoOther).

(** [Connection::run_notification_loop]: the [select!] of Ctrl-C and of the
    receive loop, which forwards every message read to the [sender].  A
    relation from the framer to the final framer, the messages delivered
    and the result: the receive loop ends on a read error or on a failed
    [send] (the receiver was dropped; tokio's [SendError] displays as
    "channel closed"); Ctrl-C ends it at any point, cancelling the receive
    loop where it waits.  A loop that never ends has no outcome. *)
Inductive notification_loop : Framer -> Framer -> list bytes -> result unit -> Prop :=
| NL_forward (f f1 f' : Framer) (resp : bytes) (sent : list bytes) (r : result unit) :
    read_async f = Some (f1, Ok resp) -> notification_loop f1 f' sent r ->
    notification_loop f f' (resp :: sent) r
| NL_send_error (f f1 : Framer) (resp : bytes) :
    read_async f = Some (f1, Ok resp) ->
    notification_loop f f1 [] (Err (NetconfClientError_new (B "send error: channel closed")))
| NL_receive_error (f f1 : Framer) (e : NetconfClientError) :
    read_async f = Some (f1, Err e) -> notification_loop f f1 [] (Err e)
| NL_ctrl_c (f f1 : Framer) (r : result unit) :
    interrupted f f1 -> ctrl_c_result r -> notification_loop f f1 [] r.

(** The [create-subscription] request of [Connection::notification]; the
    start and stop times are given as their RFC 3339 text. *)
Definition subscription_rpc (message_id : bytes) (stream : option bytes)
  (times : option (bytes * bytes)) : Rpc :=
  new_with_operation message_id
    (CreateSubscription (B "urn:ietf:params:xml:ns:netconf:notification:1.0")
       stream None (option_map fst times) (option_map snd times)).

Inductive Op :=
| DoCall (message_id : bytes) (c : Call)
| DoNotification (message_id : bytes) (stream : option bytes)
                 (times : option (bytes * bytes))
| DoSetSkipSerializing.


Section Session.

(** The XML parser of [quick_xml::de::from_str]. *)
Variable parse_xml : bytes -> option xml.

Definition from_str_reply (s : bytes) : result RpcReply :=
  match option_map decode_rpc_reply (parse_xml s) with
  | Some (Some r) => Ok r
  | _ => Err SerializingFailure
  end.

Definition from_str_hello (s : bytes) : result Hello :=
  match option_map decode_hello (parse_xml s) with
  | Some (Some h) => Ok h
  | _ => Err SerializingFailure
  end.

(** [Connection::run_rpc]; [None] when the call does not return (a panic
    in [Display], or a read that never completes). *)
Definition run_rpc (conn : Connection) (rpc : Rpc) : option (Connection * result bytes) :=
  match rpc_to_string rpc with
  | None => None
  | Some req =>
    match write_and_receive (transport conn) req with
    | None => None
    | Some (f, Err e) => Some (with_transport conn f, Err e)
    | Some (f, Ok response) =>
      let conn' := with_transport conn f in
      if negb (skip_serializing conn) then
        match from_str_reply response with
        | Err e => Some (conn', Err e)
        | Ok reply =>
          if has_errors reply then Some (conn', Err (Netconf reply))
          else Some (conn', Ok response)
        end
      else Some (conn', Ok response)
    end
  end.

(** [Connection::hello]. *)
Definition hello (conn : Connection) : option (Connection * result (option N)) :=
  match write_and_receive (transport conn) (hello_to_string Hello_new) with
  | None => None
  | Some (f, Err e) => Some (with_transport conn f, Err e)
  | Some (f, Ok response) =>
    match from_str_hello response with
    | Err e => Some (with_transport conn f, Err e)
    | Ok h =>
      let f' := if has_capability h NETCONF_BASE_11_CAP then upgrade f else f in
      Some (with_transport conn f', Ok (hello_session_id h))
    end
  end.

Definition call (conn : Connection) (message_id : bytes) (c : Call)
  : option (Connection * result bytes) :=
  match c with
  | GetConfigCall ds f d =>
    run_rpc conn (new_with_operation message_id (new_get_config ds f d))
  | GetCall f d => run_rpc conn (new_with_operation message_id (new_get f d))
  | ValidateCall ds => run_rpc conn (new_with_operation message_id (Validate ds))
  | CommitCall =>
    run_rpc conn (new_with_operation message_id (new_commit None None None None))
  | ConfirmedCommitCall t p pid =>
    run_rpc conn (new_with_operation message_id (new_commit (Some tt) t p pid))
  | CloseSessionCall =>
    run_rpc (set_closed conn) (new_with_operation message_id CloseSession)
  | KillSessionCall sid =>
    run_rpc (set_closed conn) (new_with_operation message_id (KillSession sid))
  end.

(** [Connection::notification]: [run_rpc] of the subscription, then the
    notification loop on the same transport. *)
Inductive notification (conn : Connection) (message_id : bytes) (stream : option bytes)
  (times : option (bytes * bytes)) : Connection -> result unit -> list bytes -> Prop :=
| Notif_rpc_error (conn1 : Connection) (e : NetconfClientError) :
    run_rpc conn (subscription_rpc message_id stream times) = Some (conn1, Err e) ->
    notification conn message_id stream times conn1 (Err e) []
| Notif_loop (conn1 : Connection) (resp : bytes) (f : Framer) (sent : list bytes)
    (r : result unit) :
    run_rpc conn (subscription_rpc message_id stream times) = Some (conn1, Ok resp) ->
    notification_loop (transport conn1) f sent r ->
    notification conn message_id stream times (with_transport conn1 f) r sent.

(** One operation of the session's user, and a sequence of them. *)
Inductive step : Connection -> Op -> Connection -> Prop :=
| Step_call (conn conn' : Connection) (mid : bytes) (c : Call) (r : result bytes) :
    call conn mid c = Some (conn', r) -> step conn (DoCall mid c) conn'
| Step_notification (conn conn' : Connection) (mid : bytes) (s : option bytes)
    (t : option (bytes * bytes)) (r : result unit) (sent : list bytes) :
    notification conn mid s t conn' r sent -> step conn (DoNotification mid s t) conn'
| Step_skip (conn : Connection) :
    step conn DoSetSkipSerializing (set_skip_serializing conn).

Inductive run_ops : Connection -> list Op -> Connection -> Prop :=
| Run_nil (conn : Connection) : run_ops conn [] conn
| Run_cons (conn conn1 conn' : Connection) (op : Op) (ops : list Op) :
    step conn op conn1 -> run_ops conn1 ops conn' -> run_ops conn (op :: ops) conn'.

(** [impl Drop for Connection]: a session not closed yet sends
    [close-session] (its result is only logged). *)
Definition drop (conn : Connection) (message_id : bytes) : option Connection :=
  if negb (is_closed conn) then option_map fst (call conn message_id CloseSessionCall)
  else Some conn.

(** [Connection::new] over the SSH channel [c].  When [hello] fails, the
    connection built so far (not closed) is dropped before the error is
    returned, and its [Drop] sends [close-session] with the message id
    [message_id] and waits for the reply. *)
Definition connection_new (message_id : bytes) (c : chan) : option (result Connection) :=
  let conn := mkConnection (new_framer c) None false false in
  match hello conn with
  | None => None
  | Some (conn1, Err e) =>
    match drop conn1 message_id with
    | None => None
    | Some _ => Some (Err e)
    end
  | Some (conn1, Ok sid) =>
    Some (Ok (mkConnection (transport conn1) sid (skip_serializing conn1)
                           (is_closed conn1)))
  end.

End Session.


(* ------------------------------------------------------------------ *)
(** ** Notions used in the statements *)

(** What the unescaping of a written buffer gives back: the text itself. *)
Definition plain_piece (p : piece) : bytes :=
  match p with Lit b => b | Txt t => t | Att t => t end.

Definition plain (ps : list piece) : bytes := flat_map plain_piece ps.

(** Literal markup without [&]. *)
Definition lit_ok (p : piece) : bool :=
  match p with Lit b => forallb (fun c => negb (Byte.eqb c x26)) b | _ => true end.

Definition is_bs (b : byte) : bool := Byte.eqb b x5c.

(** The length of the run of backslashes that ends [l]. *)
Fixpoint trailing_backslashes (l : bytes) : nat :=
  match l with
  | [] => 0
  | _ :: t => if forallb is_bs l then length l else trailing_backslashes t
  end.

(** [<filter type="subtree">] *)
Definition FILTER_OPEN : bytes := B "<filter type=" ++ [x22] ++ B "subtree" ++ [x22] ++ B ">".

(** The bytes [write_async] appends for a request. *)
Definition framed (upgraded : bool) (req : bytes) : bytes :=
  if upgraded then chunked_frame req else req ++ NETCONF_1_0_TERMINATOR.

(** The request a [Call] sends, and whether it closes the session. *)
Definition call_rpc (message_id : bytes) (c : Call) : Rpc :=
  new_with_operation message_id
    match c with
    | GetConfigCall ds f d => new_get_config ds f d
    | GetCall f d => new_get f d
    | ValidateCall ds => Validate ds
    | CommitCall => new_commit None None None None
    | ConfirmedCommitCall t p pid => new_commit (Some tt) t p pid
    | CloseSessionCall => CloseSession
    | KillSessionCall sid => KillSession sid
    end.

Definition closes (c : Call) : bool :=
  match c with CloseSessionCall | KillSessionCall _ => true | _ => false end.

(** The expected values of an unknown datastore error. *)
Definition DATASTORE_EXPECTED : list bytes :=
  [B "running"; B "candidate"; B "startup"; B "ftp|http|file"].

(** Sample replies. *)
Definition sample_rpc_error : xml :=
  Elem (B "rpc-error") []
       [Elem (B "error-type") [] [Text (B "protocol")];
        Elem (B "error-tag") [] [Text (B "bad-element")];
        Elem (B "error-severity") [] [Text (B "error")]].

Definition sample_reply (errors : list xml) : xml :=
  Elem (B "rpc-reply") [(B "message-id", B "101")] errors.

(** A server hello. *)
Definition sample_server_hello : xml :=
  Elem (B "hello") [(B "xmlns", NETCONF_URN)]
       [Elem (B "capabilities") []
             [Elem (B "capability") [] [Text NETCONF_BASE_11_CAP]];
        Elem (B "session-id") [] [Text (B "4")]].

(** A session over a channel holding two replies, with the 1.0 framing. *)
Definition sample_conn : Connection :=
  mkConnection (new_framer [B "<rpc-reply/>]]>]]>";
                            B "<rpc-reply><ok/></rpc-reply>]]>]]>"]) None false false.

(** The error [sample_rpc_error] decodes to. *)
Definition sample_error : Error := mkError Error_ Protocol BadElement None None None None.

(** One chunk of the 1.1 framing: its header and its bytes. *)
Definition chunk_of (l : bytes) : bytes :=
  [x0a; x23] ++ dec_bytes (N.of_nat (length l)) ++ [x0a] ++ l.

(* ================================================================== *)
(** * Properties *)

(** ** Sanity checks of the model on concrete inputs *)

Example dec_bytes_4096 : dec_bytes 4096 = B "4096".
Proof. reflexivity. Qed.

Example chunked_roundtrip_small :
  let f := fst (write_async (mkFramer [] true [] []) (B "<ok/> ")) in
  option_map snd (read_async (loopback [outbox f])) = Some (Ok (B "<ok/>")).
Proof. reflexivity. Qed.

Example eof_straddle_small :
  option_map snd (read_async (new_framer [B "<a/>]]>"; B "]]>x"]))
  = Some (Ok (B "<a/>")).
Proof. reflexivity. Qed.

(** ** Channel lemmas *)

Lemma chan_bytes_cons (s : bytes) (c : chan) :
  chan_bytes (s :: c) = s ++ chan_bytes c.
Proof. reflexivity. Qed.

Lemma chan_bytes_push (s : bytes) (c : chan) :
  chan_bytes (push s c) = s ++ chan_bytes c.
Proof. destruct s; reflexivity. Qed.

(** [read_exact] sees only the concatenation of the segments. *)
Lemma read_exact_ok (n : nat) (c : chan) :
  n <= chan_size c ->
  exists c', read_exact n c = (c', Ok (firstn n (chan_bytes c)))
             /\ chan_bytes c' = skipn n (chan_bytes c).
Proof.
  revert n; induction c as [|s c IH]; intros n Hn; unfold chan_size in *.
  - simpl in Hn. assert (n = 0) by lia; subst. exists []. split; reflexivity.
  - rewrite chan_bytes_cons in *. rewrite length_app in Hn. simpl.
    destruct (Nat.leb n (length s)) eqn:E.
    + apply Nat.leb_le in E. exists (push (skipn n s) c). split.
      * rewrite firstn_app. replace (n - length s) with 0 by lia.
        simpl. rewrite app_nil_r. reflexivity.
      * rewrite chan_bytes_push, skipn_app. replace (n - length s) with 0 by lia.
        reflexivity.
    + apply Nat.leb_gt in E. destruct (IH (n - length s)) as [c' [H1 H2]]; [lia|].
      rewrite H1. exists c'. split.
      * rewrite firstn_app, (firstn_all2 s) by lia. reflexivity.
      * rewrite H2, skipn_app, (skipn_all2 s) by lia. reflexivity.
Qed.

Lemma read_exact_1 (b : byte) (rest : bytes) (c : chan) :
  chan_bytes c = b :: rest ->
  exists c', read_exact 1 c = (c', Ok [b]) /\ chan_bytes c' = rest.
Proof.
  intros H. destruct (read_exact_ok 1 c) as [c' [H1 H2]].
  - unfold chan_size. rewrite H. simpl. lia.
  - rewrite H in H1, H2. exists c'. split; assumption.
Qed.

(** ** The chunk header parser *)

Lemma digit_not_hash (d : byte) : is_ascii_digit d = true -> Byte.eqb d x23 = false.
Proof. destruct d; try reflexivity; discriminate. Qed.

Lemma digit_not_nl (d : byte) : is_ascii_digit d = true -> Byte.eqb d x0a = false.
Proof. destruct d; try reflexivity; discriminate. Qed.

Lemma header_loop_digits (ds : bytes) :
  forall fuel k c rest,
  forallb is_ascii_digit ds = true ->
  chan_bytes c = ds ++ x0a :: rest ->
  length ds < fuel ->
  exists c', header_loop fuel k c = Some (c', Ok (digits_value k ds))
             /\ chan_bytes c' = rest.
Proof.
  induction ds as [|d ds IH]; intros fuel k c rest Hd Hc Hf;
    destruct fuel as [|fuel]; simpl in Hf; try lia.
  - destruct (read_exact_1 x0a rest c Hc) as [c1 [H1 H2]].
    exists c1. simpl. rewrite H1. split; [reflexivity | assumption].
  - simpl in Hd. apply andb_true_iff in Hd as [Hd Hds].
    destruct (read_exact_1 d (ds ++ x0a :: rest) c Hc) as [c1 [H1 H2]].
    simpl. rewrite H1. simpl. rewrite digit_not_hash, digit_not_nl, Hd by assumption.
    simpl. apply IH; auto. lia.
Qed.

Lemma header_loop_end (fuel : nat) (k : N) (c : chan) (rest : bytes) :
  chan_bytes c = x23 :: x0a :: rest -> 2 <= fuel ->
  exists c', header_loop fuel k c = Some (c', Ok k) /\ chan_bytes c' = rest.
Proof.
  intros Hc Hf. destruct fuel as [|[|fuel]]; try lia.
  destruct (read_exact_1 x23 (x0a :: rest) c Hc) as [c1 [H1 H2]].
  destruct (read_exact_1 x0a rest c1 H2) as [c2 [H3 H4]].
  exists c2. simpl. rewrite H1. simpl. rewrite H3. split; [reflexivity | assumption].
Qed.

Lemma read_header_digits (ds rest : bytes) (c : chan) :
  forallb is_ascii_digit ds = true ->
  chan_bytes c = [x0a; x23] ++ ds ++ x0a :: rest ->
  exists c', read_header c = Some (c', Ok (digits_value 0 ds))
             /\ chan_bytes c' = rest.
Proof.
  intros Hd Hc. unfold read_header.
  destruct (read_exact_ok 2 c) as [c1 [H1 H2]].
  - unfold chan_size. rewrite Hc. simpl. lia.
  - rewrite H1, Hc. cbn -[header_loop chan_size]. rewrite Hc in H2. simpl in H2.
    apply header_loop_digits; auto.
    unfold chan_size. rewrite H2, length_app. simpl. lia.
Qed.

Lemma read_header_end (rest : bytes) (c : chan) :
  chan_bytes c = [x0a; x23; x23; x0a] ++ rest ->
  exists c', read_header c = Some (c', Ok 0%N) /\ chan_bytes c' = rest.
Proof.
  intros Hc. unfold read_header.
  destruct (read_exact_ok 2 c) as [c1 [H1 H2]].
  - unfold chan_size. rewrite Hc. simpl. lia.
  - rewrite H1, Hc. cbn -[header_loop chan_size]. rewrite Hc in H2. simpl in H2.
    apply header_loop_end; auto. unfold chan_size. rewrite H2. simpl. lia.
Qed.

(** ** Decimal chunk sizes *)

Lemma digits_value_wrap (ds : bytes) :
  forall k, digits_value (u32_wrap k) ds = u32_wrap (plain_value k ds).
Proof.
  induction ds as [|d ds IH]; intros k; [reflexivity|].
  unfold digits_value, plain_value in *. simpl. rewrite <- IH. f_equal.
  unfold u32_wrap.
  rewrite <- N.Div0.add_mod_idemp_l, N.Div0.mul_mod_idemp_l, N.Div0.add_mod_idemp_l.
  reflexivity.
Qed.

Lemma plain_value_acc (d : Decimal.uint) :
  forall acc, plain_value (N.pos acc) (uint_bytes d) = N.pos (Pos.of_uint_acc d acc).
Proof.
  induction d as [|d IH|d IH|d IH|d IH|d IH|d IH|d IH|d IH|d IH|d IH];
    intros acc; [reflexivity| ..];
    unfold plain_value in *; cbn [uint_bytes fold_left Pos.of_uint_acc];
    rewrite <- IH; f_equal; unfold bv; cbn [Byte.to_N]; lia.
Qed.

Lemma plain_value_of_uint (d : Decimal.uint) :
  plain_value 0 (uint_bytes d) = N.of_uint d.
Proof.
  induction d as [|d IH|d|d|d|d|d|d|d|d|d]; [reflexivity|exact IH|..];
    apply (plain_value_acc d).
Qed.

Lemma dec_bytes_value (n : N) : digits_value 0 (dec_bytes n) = u32_wrap n.
Proof.
  change 0%N with (u32_wrap 0) at 1. rewrite digits_value_wrap.
  unfold dec_bytes. rewrite plain_value_of_uint, DecimalN.Unsigned.of_to.
  reflexivity.
Qed.

Lemma dec_bytes_digits (n : N) : forallb is_ascii_digit (dec_bytes n) = true.
Proof.
  unfold dec_bytes. induction (N.to_uint n); simpl; auto.
Qed.

(** ** UTF-8 and whitespace lemmas *)

Lemma from_utf8_lossy_valid (l : bytes) :
  valid_utf8 l = true -> from_utf8_lossy l = l.
Proof.
  assert (Hn : forall n l, length l <= n -> valid_utf8 l = true ->
                          from_utf8_lossy l = l).
  { induction n as [|n IH]; intros [|b t] Hlen H; simpl in Hlen; try reflexivity;
      try lia.
    simpl in H |- *.
    destruct (utf8_width b) as [|[|[|[|[|w]]]]]; try discriminate.
    - rewrite IH by (auto; lia). reflexivity.
    - destruct t as [|c t1]; [discriminate|]. simpl in Hlen.
      apply andb_true_iff in H as [H1 H2].
      rewrite H1, IH by (auto; lia). reflexivity.
    - destruct t as [|c [|d t2]]; try discriminate. simpl in Hlen.
      apply andb_true_iff in H as [H H2]. apply andb_true_iff in H as [H1 H3].
      rewrite H1, H3, IH by (auto; lia). reflexivity.
    - destruct t as [|c [|d [|e t3]]]; try discriminate. simpl in Hlen.
      apply andb_true_iff in H as [H H2]. apply andb_true_iff in H as [H H4].
      apply andb_true_iff in H as [H1 H3].
      rewrite H1, H3, H4, IH by (auto; lia). reflexivity. }
  intros H. apply (Hn (length l)); auto.
Qed.



(** ** The chunked framer *)


Lemma chunk_loop_step (fuel : nat) (rb : bytes) (c : chan) :
  chunk_loop (S fuel) rb c =
  match read_header c with
  | None => None
  | Some (c1, Err e) => Some (rb, c1, Some e)
  | Some (c1, Ok chunk_size) =>
    if (chunk_size =? 0)%N then Some (rb, c1, None)
    else
      match read_exact (N.to_nat chunk_size) c1 with
      | (c2, Err e) => Some (rb, c2, Some e)
      | (c2, Ok buffer) => chunk_loop fuel (rb ++ buffer) c2
      end
  end.
Proof. reflexivity. Qed.




Example chunked_roundtrip_len0 :
  option_map snd (read_async (loopback [written_chunked []])) = Some (Ok []).
Proof. vm_compute. reflexivity. Qed.

(** For the empty message the trailing ["\n##\n"] is left in the channel. *)
Example chunked_roundtrip_len0_leftover :
  option_map (fun r => chan_bytes (inbox (fst r)))
    (read_async (loopback [written_chunked []])) = Some [x0a; x23; x23; x0a].
Proof. vm_compute. reflexivity. Qed.

Example chunked_roundtrip_len1 :
  option_map snd (read_async (loopback (one_byte_segments (written_chunked (B "x")))))
  = Some (Ok (B "x")).
Proof. vm_compute. reflexivity. Qed.

Example chunked_roundtrip_len4096 :
  option_map snd (read_async (loopback (one_byte_segments
                                         (written_chunked (repeat x61 4096)))))
  = Some (Ok (repeat x61 4096)).
Proof. vm_compute. reflexivity. Qed.




(** ** The end-of-message framer *)

Lemma prefixb_firstn (p l : bytes) :
  prefixb p l = true <-> firstn (length p) l = p.
Proof.
  revert l; induction p as [|a p IH]; intros [|b l]; simpl;
    try (split; congruence).
  rewrite andb_true_iff, IH. split.
  - intros [H1 H2]. apply Byte.byte_dec_bl in H1. congruence.
  - intros H. injection H as -> H. split; [apply Byte.byte_dec_lb|]; auto.
Qed.

Lemma prefixb_length (p l : bytes) : prefixb p l = true -> length p <= length l.
Proof.
  revert l; induction p as [|a p IH]; intros [|b l] H; simpl in *; try lia;
    try discriminate.
  apply andb_true_iff in H as [_ H]. apply IH in H. lia.
Qed.

Lemma prefixb_app_long (p l x : bytes) :
  length p <= length l -> prefixb p (l ++ x) = prefixb p l.
Proof.
  revert l; induction p as [|a p IH]; intros [|b l] H; simpl in *; try lia; auto.
  rewrite IH by lia. reflexivity.
Qed.

Lemma search_in_bound (p l : bytes) (i : nat) :
  search_in p l = Some i -> i + length p <= length l.
Proof.
  revert i; induction l as [|a l IH]; intros i H; simpl in H.
  - destruct (prefixb p []) eqn:E; [|discriminate].
    injection H as <-. apply prefixb_length in E. simpl in *. lia.
  - destruct (prefixb p (a :: l)) eqn:E.
    + injection H as <-. apply prefixb_length in E. lia.
    + destruct (search_in p l) as [i'|] eqn:Ei; simpl in H; [|discriminate].
      injection H as <-. specialize (IH i' eq_refl). simpl. lia.
Qed.

Lemma search_in_app (p l x : bytes) (i : nat) :
  search_in p l = Some i -> search_in p (l ++ x) = Some i.
Proof.
  revert i; induction l as [|a l IH]; intros i H.
  - simpl in H. destruct (prefixb p []) eqn:E; [|discriminate].
    injection H as <-. destruct p; [|discriminate]. destruct x; reflexivity.
  - pose proof (search_in_bound p (a :: l) i H) as Hb.
    assert (Hp : prefixb p (a :: l ++ x) = prefixb p (a :: l)).
    { change (a :: l ++ x) with ((a :: l) ++ x). apply prefixb_app_long.
      destruct (prefixb p (a :: l)) eqn:E; [apply prefixb_length; auto|].
      simpl in H. rewrite E in H.
      destruct (search_in p l) as [i'|]; simpl in H; [|discriminate].
      injection H as <-. simpl in *. lia. }
    simpl in H |- *. rewrite Hp. destruct (prefixb p (a :: l)) eqn:E; [exact H|].
    destruct (search_in p l) as [i'|] eqn:Ei; simpl in H; [|discriminate].
    injection H as <-. rewrite (IH i' eq_refl). reflexivity.
Qed.

(** [search_in] finds the first occurrence. *)
Lemma search_in_first (p l : bytes) (pos : nat) :
  firstn (length p) (skipn pos l) = p ->
  (forall j, j < pos -> firstn (length p) (skipn j l) <> p) ->
  search_in p l = Some pos.
Proof.
  revert l; induction pos as [|pos IH]; intros l H1 H2.
  - destruct l; simpl in *; apply prefixb_firstn in H1; rewrite H1; reflexivity.
  - destruct l as [|a l].
    + exfalso. apply (H2 0); [lia|]. exact H1.
    + simpl. destruct (prefixb p (a :: l)) eqn:E.
      * apply prefixb_firstn in E. exfalso. apply (H2 0); [lia|]. exact E.
      * rewrite (IH l); auto. intros j Hj. apply (H2 (S j)). lia.
Qed.

Lemma eof_loop_step (fuel : nat) (rb : bytes) (c : chan) :
  eof_loop (S fuel) rb c =
  match search_in NETCONF_1_0_TERMINATOR rb with
  | Some _ => Some (rb, c)
  | None =>
    match read_256 c with
    | (_, []) => None
    | (c1, buffer) => eof_loop fuel (rb ++ buffer) c1
    end
  end.
Proof. reflexivity. Qed.

Lemma eof_loop_finds (fuel : nat) :
  forall rb c pos,
  Forall (fun s => s <> []) c ->
  chan_size c < fuel ->
  search_in NETCONF_1_0_TERMINATOR (rb ++ chan_bytes c) = Some pos ->
  exists rb' c', eof_loop fuel rb c = Some (rb', c')
                 /\ rb' ++ chan_bytes c' = rb ++ chan_bytes c
                 /\ search_in NETCONF_1_0_TERMINATOR rb' = Some pos.
Proof.
  induction fuel as [|fuel IH]; intros rb c pos Hne Hf Hs; [lia|].
  rewrite eof_loop_step. destruct (search_in NETCONF_1_0_TERMINATOR rb) as [p|] eqn:Hrb.
  - exists rb, c. split; [reflexivity|split; [reflexivity|]].
    rewrite (search_in_app _ _ _ _ Hrb) in Hs. congruence.
  - destruct c as [|s c'].
    + simpl in Hs. rewrite app_nil_r in Hs. congruence.
    + inversion Hne as [|? ? Hs0 Hne']; subst. cbn [read_256].
      destruct (firstn 256 s) as [|b bs] eqn:Hfs.
      * destruct s; [contradiction|discriminate].
      * assert (Hsplit : s = (b :: bs) ++ skipn 256 s)
          by (rewrite <- Hfs; symmetry; apply firstn_skipn).
        destruct (IH (rb ++ b :: bs) (push (skipn 256 s) c') pos)
          as [rb' [c'' [H1 [H2 H3]]]].
        -- destruct (skipn 256 s); simpl; [exact Hne'|].
           constructor; [discriminate|exact Hne'].
        -- unfold chan_size in *. rewrite chan_bytes_push, length_app.
           rewrite chan_bytes_cons, Hsplit, !length_app in Hf.
           change (length (b :: bs)) with (S (length bs)) in Hf. lia.
        -- rewrite chan_bytes_push.
           rewrite chan_bytes_cons, Hsplit in Hs.
           rewrite <- !app_assoc in Hs |- *. cbn [app] in Hs |- *. exact Hs.
        -- exists rb', c''. split; [exact H1|split; [|exact H3]].
           rewrite H2, chan_bytes_push, chan_bytes_cons.
           rewrite Hsplit at 2. rewrite <- !app_assoc. reflexivity.
Qed.

(** C7: in 1.0 mode [read_async] reads until the buffer contains
    ["]]>]]>"], returns the bytes before its first occurrence (in what was
    buffered and what the channel delivers), decoded lossily as UTF-8 and
    trimmed at the end, and consumes the delimiter; bytes after it stay
    buffered or in the channel.  This holds for every split of the input
    into reads, so also when the six-byte terminator straddles two reads. *)
Theorem eof_framer_read (rb o : bytes) (c : chan) (pos : nat) :
  Forall (fun s => s <> []) c ->
  firstn 6 (skipn pos (rb ++ chan_bytes c)) = NETCONF_1_0_TERMINATOR ->
  (forall j, j < pos ->
     firstn 6 (skipn j (rb ++ chan_bytes c)) <> NETCONF_1_0_TERMINATOR) ->
  exists f', read_async (mkFramer rb false c o)
             = Some (f', Ok (trim_end (from_utf8_lossy
                                         (firstn pos (rb ++ chan_bytes c)))))
             /\ read_buffer f' ++ chan_bytes (inbox f')
                = skipn (pos + 6) (rb ++ chan_bytes c)
             /\ upgraded f' = false /\ outbox f' = o.
Proof.
  intros Hne H1 H2.
  assert (Hs : search_in NETCONF_1_0_TERMINATOR (rb ++ chan_bytes c) = Some pos)
    by (apply search_in_first; auto).
  destruct (eof_loop_finds (S (chan_size c)) rb c pos Hne (Nat.lt_succ_diag_r _) Hs)
    as [rb' [c' [E1 [E2 E3]]]].
  pose proof (search_in_bound _ _ _ E3) as Hb. simpl in Hb.
  exists (mkFramer (skipn (pos + 6) rb') false c' o).
  unfold read_async. cbn [upgraded read_buffer inbox outbox].
  rewrite E1, E3. split; [|split; [|split]]; try reflexivity.
  - rewrite <- E2, firstn_app.
    replace (pos - length rb') with 0 by lia. rewrite app_nil_r. reflexivity.
  - cbn [read_buffer inbox]. rewrite <- E2, skipn_app.
    replace (pos + 6 - length rb') with 0 by lia. reflexivity.
Qed.

Lemma eof_framer_read_witness :
  exists f', read_async (mkFramer [] false [B "<a/>]]>"; B "]]>x"] [])
             = Some (f', Ok (trim_end (from_utf8_lossy
                 (firstn 4 ([] ++ chan_bytes [B "<a/>]]>"; B "]]>x"])))))
             /\ read_buffer f' ++ chan_bytes (inbox f')
                = skipn (4 + 6) ([] ++ chan_bytes [B "<a/>]]>"; B "]]>x"])
             /\ upgraded f' = false /\ outbox f' = [].
Proof.
  apply eof_framer_read.
  - repeat constructor; discriminate.
  - reflexivity.
  - intros j Hj E. destruct j as [|[|[|[|j]]]]; try lia; vm_compute in E; discriminate.
Defined.

(** ** The chunk header parser in general *)

Lemma read_exact_eof_1 (c : chan) :
  chan_bytes c = [] -> exists c', read_exact 1 c = (c', Err (Io UnexpectedEof)).
Proof.
  induction c as [|s c IH]; intros H; [eexists; reflexivity|].
  rewrite chan_bytes_cons in H. apply app_eq_nil in H as [Hs Hc]. subst s.
  destruct (IH Hc) as [c' Hr]. exists c'. simpl. rewrite Hr. reflexivity.
Qed.

Lemma header_loop_general (ds : bytes) :
  forall fuel k c x rest,
  forallb (fun b => is_ascii_digit b || Byte.eqb b x23) ds = true ->
  is_ascii_digit x = false -> Byte.eqb x x23 = false ->
  chan_bytes c = ds ++ x :: rest -> length ds < fuel ->
  exists c', chan_bytes c' = rest
    /\ header_loop fuel k c
       = Some (c', if Byte.eqb x x0a
                   then Ok (digits_value k (List.filter is_ascii_digit ds))
                   else Err (MalformedChunk x30 x)).
Proof.
  induction ds as [|d ds IH]; intros fuel k c x rest Hds Hx1 Hx2 Hc Hf;
    destruct fuel as [|fuel]; simpl in Hf; try lia.
  - destruct (read_exact_1 x rest c Hc) as [c1 [H1 H2]].
    exists c1. split; [exact H2|]. cbn [header_loop]. rewrite H1. cbn [hd].
    rewrite Hx2, Hx1. destruct (Byte.eqb x x0a); reflexivity.
  - simpl in Hds. apply andb_true_iff in Hds as [Hd Hds].
    destruct (read_exact_1 d (ds ++ x :: rest) c Hc) as [c1 [H1 H2]].
    cbn [header_loop]. rewrite H1. cbn [hd].
    destruct (Byte.eqb d x23) eqn:E.
    + apply Byte.byte_dec_bl in E. subst d. apply IH; auto. lia.
    + rewrite orb_false_r in Hd. rewrite (digit_not_nl d Hd), Hd. cbn [negb].
      cbn [List.filter]. rewrite Hd. apply IH; auto. lia.
Qed.

Lemma header_loop_eof (ds : bytes) :
  forall fuel k c,
  forallb (fun b => is_ascii_digit b || Byte.eqb b x23) ds = true ->
  chan_bytes c = ds -> length ds < fuel ->
  exists c', header_loop fuel k c = Some (c', Err (Io UnexpectedEof)).
Proof.
  induction ds as [|d ds IH]; intros fuel k c Hds Hc Hf;
    destruct fuel as [|fuel]; simpl in Hf; try lia.
  - destruct (read_exact_eof_1 c Hc) as [c1 H1].
    exists c1. cbn [header_loop]. rewrite H1. reflexivity.
  - simpl in Hds. apply andb_true_iff in Hds as [Hd Hds].
    destruct (read_exact_1 d ds c Hc) as [c1 [H1 H2]].
    cbn [header_loop]. rewrite H1. cbn [hd].
    destruct (Byte.eqb d x23) eqn:E.
    + apply (IH fuel k c1); auto. lia.
    + rewrite orb_false_r in Hd. rewrite (digit_not_nl d Hd), Hd. cbn [negb].
      apply IH; auto. lia.
Qed.

Lemma read_exact_2 (b0 b1 : byte) (rest : bytes) (c : chan) :
  chan_bytes c = b0 :: b1 :: rest ->
  exists c', read_exact 2 c = (c', Ok [b0; b1]) /\ chan_bytes c' = rest.
Proof.
  intros H. destruct (read_exact_ok 2 c) as [c' [H1 H2]].
  - unfold chan_size. rewrite H. simpl. lia.
  - rewrite H in H1, H2. exists c'. split; assumption.
Qed.

(** C3 (counterexample): a [#] after the digits does not end the message;
    it is skipped, wherever it occurs: ["\n#5#\n"] announces a chunk of 5
    bytes, ["\n#1#2\n"] one of 12, and a stream ["\n#3#\nabc\n##\n"] reads
    back ["abc"]. *)
Lemma read_header_hash_skipped :
  read_header [[x0a; x23] ++ B "5#" ++ [x0a]] = Some ([], Ok 5%N)
  /\ read_header [[x0a; x23] ++ B "1#2" ++ [x0a]] = Some ([], Ok 12%N)
  /\ option_map snd (read_async (loopback [[x0a; x23] ++ B "3#" ++ [x0a] ++ B "abc"
                                           ++ [x0a; x23; x23; x0a]]))
     = Some (Ok (B "abc")).
Proof. split; [|split]; reflexivity. Qed.

(** C3: [read_header] checks the leading ["\n#"] (a mismatch is a
    [MalformedChunk] carrying the expected ['\n'] or ['#'] and the byte
    read); then it reads one byte at a time: ['#'] is skipped wherever it
    occurs, a digit [d] makes the length [(len * 10 + d) mod 2^32], ['\n']
    returns the length, any other byte fails with [MalformedChunk] carrying
    ['0'] and that byte, and end of stream fails with an I/O error.  The end
    of a message is a returned length of 0 (["\n##\n"], also ["\n#0\n"]), on
    which [read_async] stops. *)
Theorem read_header_behaviour (c : chan) :
  (forall b0 b1 rest, chan_bytes c = b0 :: b1 :: rest -> Byte.eqb b0 x0a = false ->
     exists c', read_header c = Some (c', Err (MalformedChunk x0a b0)))
  /\ (forall b1 rest, chan_bytes c = x0a :: b1 :: rest -> Byte.eqb b1 x23 = false ->
     exists c', read_header c = Some (c', Err (MalformedChunk x23 b1)))
  /\ (forall ds x rest,
     forallb (fun b => is_ascii_digit b || Byte.eqb b x23) ds = true ->
     is_ascii_digit x = false -> Byte.eqb x x23 = false ->
     chan_bytes c = [x0a; x23] ++ ds ++ x :: rest ->
     exists c', chan_bytes c' = rest
       /\ read_header c
          = Some (c', if Byte.eqb x x0a
                      then Ok (u32_wrap (plain_value 0 (List.filter is_ascii_digit ds)))
                      else Err (MalformedChunk x30 x))
       /\ (x = x0a -> u32_wrap (plain_value 0 (List.filter is_ascii_digit ds)) = 0%N ->
           forall rb o, read_async (mkFramer rb true c o)
                        = Some (mkFramer [] true c' o, Ok (trim_end (from_utf8_lossy rb)))))
  /\ (forall ds,
     forallb (fun b => is_ascii_digit b || Byte.eqb b x23) ds = true ->
     chan_bytes c = [x0a; x23] ++ ds ->
     exists c', read_header c = Some (c', Err (Io UnexpectedEof))).
Proof.
  split; [|split; [|split]].
  - intros b0 b1 rest Hc Hb0. destruct (read_exact_2 b0 b1 rest c Hc) as [c1 [H1 _]].
    exists c1. unfold read_header. rewrite H1. cbn [nth]. rewrite Hb0. reflexivity.
  - intros b1 rest Hc Hb1. destruct (read_exact_2 x0a b1 rest c Hc) as [c1 [H1 _]].
    exists c1. unfold read_header. rewrite H1. cbn [nth]. rewrite Hb1. reflexivity.
  - intros ds x rest Hds Hx1 Hx2 Hc.
    destruct (read_exact_2 x0a x23 (ds ++ x :: rest) c Hc) as [c1 [H1 H2]].
    destruct (header_loop_general ds (S (chan_size c1)) 0 c1 x rest Hds Hx1 Hx2 H2)
      as [c' [H3 H4]].
    { unfold chan_size. rewrite H2, length_app. simpl. lia. }
    assert (Hr : read_header c
                 = Some (c', if Byte.eqb x x0a
                             then Ok (u32_wrap (plain_value 0 (List.filter is_ascii_digit ds)))
                             else Err (MalformedChunk x30 x))).
    { unfold read_header. rewrite H1. cbn [nth negb Byte.eqb]. rewrite H4.
      change 0%N with (u32_wrap 0) at 1. rewrite digits_value_wrap. reflexivity. }
    exists c'. split; [exact H3|split; [exact Hr|]].
    intros Hx Hz rb o. subst x. rewrite (Byte.byte_dec_lb (eq_refl x0a)), Hz in Hr.
    unfold read_async. cbn [upgraded read_buffer inbox outbox].
    rewrite chunk_loop_step, Hr. reflexivity.
  - intros ds Hds Hc.
    destruct (read_exact_2 x0a x23 ds c Hc) as [c1 [H1 H2]].
    destruct (header_loop_eof ds (S (chan_size c1)) 0 c1 Hds H2) as [c' H3].
    { unfold chan_size. rewrite H2. lia. }
    exists c'. unfold read_header. rewrite H1. cbn [nth negb Byte.eqb]. exact H3.
Qed.

Lemma read_header_behaviour_witness :
  exists c', chan_bytes c' = B "rest"
    /\ read_header [[x0a; x23] ++ B "4#2"; [x0a] ++ B "rest"]
       = Some (c', Ok 42%N)
    /\ (x0a = x0a -> u32_wrap (plain_value 0 (List.filter is_ascii_digit (B "4#2"))) = 0%N ->
        forall rb o, read_async (mkFramer rb true [[x0a; x23] ++ B "4#2"; [x0a] ++ B "rest"] o)
                     = Some (mkFramer [] true c' o, Ok (trim_end (from_utf8_lossy rb)))).
Proof.
  destruct (read_header_behaviour [[x0a; x23] ++ B "4#2"; [x0a] ++ B "rest"])
    as [_ [_ [H _]]].
  apply (H (B "4#2") x0a (B "rest")); reflexivity.
Defined.

(** ** [strip_slashes] *)

Lemma trailing_all (l : bytes) :
  forallb is_bs l = true -> trailing_backslashes l = length l.
Proof.
  destruct l as [|c t]; [reflexivity|]. intros H. cbn [trailing_backslashes].
  rewrite H. reflexivity.
Qed.

Lemma strip_go_none_iff (n : nat) :
  forall l, length l <= n ->
  strip_go l = None <-> Nat.odd (trailing_backslashes l) = true.
Proof.
  induction n as [|n IH]; intros [|c t] Hl; simpl in Hl; try lia;
    try (simpl; split; discriminate).
  cbn [strip_go]. change (Byte.eqb c x5c) with (is_bs c).
  destruct (is_bs c) eqn:Ec.
  - destruct t as [|c' t'].
    + simpl. rewrite Ec. split; reflexivity.
    + assert (Ht : trailing_backslashes (c :: c' :: t') = trailing_backslashes t'
                   \/ (trailing_backslashes (c :: c' :: t') = S (S (length t'))
                       /\ trailing_backslashes t' = length t')).
      { cbn [trailing_backslashes]. cbn [forallb]. rewrite Ec. cbn [andb].
        destruct (is_bs c' && forallb is_bs t') eqn:E.
        - right. apply andb_true_iff in E as [_ E]. split; [reflexivity|].
          apply trailing_all. exact E.
        - left. reflexivity. }
      simpl in Hl. assert (IHt := IH t' ltac:(lia)).
      destruct Ht as [Ht | [Ht1 Ht2]];
        [rewrite Ht
        | rewrite Ht1; rewrite Ht2 in IHt;
          change (Nat.odd (S (S (length t')))) with (Nat.odd (length t'))];
        rewrite <- IHt; destruct (strip_go t'); simpl; split; intros; try reflexivity; discriminate.
  - assert (Ht : trailing_backslashes (c :: t) = trailing_backslashes t).
    { cbn [trailing_backslashes forallb]. rewrite Ec. reflexivity. }
    rewrite Ht. rewrite <- (IH t) by lia.
    destruct (strip_go t); simpl; split; intros; try reflexivity; discriminate.
Qed.

(** C10: [Filter::subtree] returns a filter whose payload is the stripped,
    trimmed input exactly when the trimmed input ends in an even run of
    backslashes (so no backslash is left unpaired); when the run is odd, the
    last backslash escapes nothing, [strip_slashes] returns [None] and the
    [unwrap] panics. *)
Theorem subtree_total (S : bytes) :
  (Nat.even (trailing_backslashes (trim S)) = true ->
     exists n, strip_slashes S = Some n
               /\ subtree S = Some (mkFilter (B "subtree") (trim n)))
  /\ (Nat.odd (trailing_backslashes (trim S)) = true ->
     strip_slashes S = None /\ subtree S = None).
Proof.
  pose proof (strip_go_none_iff (length (trim S)) (trim S) (le_n _)) as H.
  unfold subtree, strip_slashes. split.
  - intros He. destruct (strip_go (trim S)) as [n|] eqn:E.
    + exists n. split; reflexivity.
    + exfalso. assert (Ho := proj1 H eq_refl). unfold Nat.odd in Ho.
      rewrite He in Ho. discriminate.
  - intros Ho. apply H in Ho. rewrite Ho. split; reflexivity.
Qed.

Lemma subtree_total_witness :
  (exists n, strip_slashes (B " <a\\>  ") = Some n
             /\ subtree (B " <a\\>  ") = Some (mkFilter (B "subtree") (trim n)))
  /\ strip_slashes (B "<a/>\ ") = None /\ subtree (B "<a/>\ ") = None.
Proof.
  split.
  - apply (proj1 (subtree_total (B " <a\\>  "))). reflexivity.
  - apply (proj2 (subtree_total (B "<a/>\ "))). reflexivity.
Defined.

(** ** Unescaping what the serializer wrote *)

Lemma option_map_app_nil (o : option bytes) : option_map (app []) o = o.
Proof. destruct o; reflexivity. Qed.

Lemma option_map_app_app (a b : bytes) (o : option bytes) :
  option_map (app a) (option_map (app b) o) = option_map (app (a ++ b)) o.
Proof. destruct o; simpl; [rewrite app_assoc|]; reflexivity. Qed.

Lemma unescape_go_app (x y : bytes) :
  forall st a, unescape_go x st = Some a ->
  unescape_go (x ++ y) st = option_map (app a) (unescape_go y None).
Proof.
  induction x as [|b x IH]; intros st a H.
  - destruct st; simpl in H; [discriminate|]. injection H as <-. simpl.
    symmetry. apply option_map_app_nil.
  - destruct st as [acc|]; cbn [app unescape_go] in H |- *.
    + destruct (Byte.eqb b x3b).
      * destruct (resolve_entity (rev acc)) as [r|]; [|discriminate].
        destruct (unescape_go x None) as [a'|] eqn:E; simpl in H; [|discriminate].
        injection H as <-. rewrite (IH None a' E).
        apply (option_map_app_app r a').
      * exact (IH _ _ H).
    + destruct (Byte.eqb b x26).
      * exact (IH _ _ H).
      * destruct (unescape_go x None) as [a'|] eqn:E; simpl in H; [|discriminate].
        injection H as <-. rewrite (IH None a' E).
        apply (option_map_app_app [b] a').
Qed.

Lemma unescape_escape_byte (attr : bool) (b : byte) (y : bytes) :
  unescape_go (escape_byte attr b ++ y) None = option_map (cons b) (unescape_go y None).
Proof.
  unfold escape_byte.
  destruct (Byte.eqb b x26) eqn:E1;
    [apply Byte.byte_dec_bl in E1; subst; simpl; destruct (unescape_go y None); reflexivity|].
  destruct (Byte.eqb b x3c) eqn:E2;
    [apply Byte.byte_dec_bl in E2; subst; simpl; destruct (unescape_go y None); reflexivity|].
  destruct (Byte.eqb b x3e) eqn:E3;
    [apply Byte.byte_dec_bl in E3; subst; simpl; destruct (unescape_go y None); reflexivity|].
  destruct (attr && Byte.eqb b x22) eqn:E4.
  - apply andb_true_iff in E4 as [_ E4]. apply Byte.byte_dec_bl in E4. subst.
    simpl. destruct (unescape_go y None); reflexivity.
  - cbn [app unescape_go]. rewrite E1. reflexivity.
Qed.

Lemma unescape_escape_app (attr : bool) (t y : bytes) :
  unescape_go (flat_map (escape_byte attr) t ++ y) None
  = option_map (app t) (unescape_go y None).
Proof.
  induction t as [|b t IH]; simpl.
  - symmetry. apply option_map_app_nil.
  - rewrite <- app_assoc, unescape_escape_byte, IH.
    destruct (unescape_go y None); reflexivity.
Qed.

Lemma unescape_lit_app (l y : bytes) :
  forallb (fun c => negb (Byte.eqb c x26)) l = true ->
  unescape_go (l ++ y) None = option_map (app l) (unescape_go y None).
Proof.
  induction l as [|b l IH]; intros H; simpl.
  - symmetry. apply option_map_app_nil.
  - simpl in H. apply andb_true_iff in H as [H1 H2].
    destruct (Byte.eqb b x26); [discriminate|]. rewrite (IH H2).
    destruct (unescape_go y None); reflexivity.
Qed.

Lemma unescape_buffer_app (ps : list piece) (y : bytes) :
  forallb lit_ok ps = true ->
  unescape_go (buffer_of ps ++ y) None = option_map (app (plain ps)) (unescape_go y None).
Proof.
  induction ps as [|p ps IH]; intros H; simpl.
  - symmetry. apply option_map_app_nil.
  - apply andb_true_iff in H as [H1 H2]. rewrite <- app_assoc.
    destruct p as [l|t|t]; simpl in H1 |- *.
    + rewrite (unescape_lit_app _ _ H1), IH by exact H2. apply option_map_app_app.
    + unfold escape. rewrite unescape_escape_app, IH by exact H2.
      apply option_map_app_app.
    + unfold escape_attr. rewrite unescape_escape_app, IH by exact H2.
      apply option_map_app_app.
Qed.

Lemma unescape_buffer (ps : list piece) :
  forallb lit_ok ps = true -> unescape (buffer_of ps) = Some (plain ps).
Proof.
  intros H. unfold unescape. rewrite <- (app_nil_r (buffer_of ps)).
  rewrite unescape_buffer_app by exact H. simpl. rewrite app_nil_r. reflexivity.
Qed.

(** ** [trim] is idempotent and keeps a byte-wise property *)

Lemma trim_start_length (s : bytes) : length (trim_start s) <= length s.
Proof.
  remember (length s) as m eqn:Hm. revert s Hm.
  induction m as [m IH] using lt_wf_ind; intros s Hm; subst m.
  destruct s as [|b s1]; [simpl; lia|]. cbn [trim_start].
  destruct (ascii_ws b); [specialize (IH (length s1) ltac:(simpl; lia) s1 eq_refl); simpl; lia|].
  destruct s1 as [|c s2]; [simpl; lia|].
  destruct (ws2 b c); [specialize (IH (length s2) ltac:(simpl; lia) s2 eq_refl); simpl; lia|].
  destruct s2 as [|d s3]; [simpl; lia|].
  destruct (ws3 b c d); [specialize (IH (length s3) ltac:(simpl; lia) s3 eq_refl); simpl; lia|].
  lia.
Qed.

Lemma trim_start_idem (s : bytes) : trim_start (trim_start s) = trim_start s.
Proof.
  remember (length s) as m eqn:Hm. revert s Hm.
  induction m as [m IH] using lt_wf_ind; intros s Hm; subst m.
  destruct s as [|b s1]; [reflexivity|]. cbn [trim_start].
  destruct (ascii_ws b) eqn:E1; [apply (IH (length s1)); simpl; lia + reflexivity|].
  destruct s1 as [|c s2]; [cbn [trim_start]; rewrite E1; reflexivity|].
  destruct (ws2 b c) eqn:E2; [apply (IH (length s2)); simpl; lia + reflexivity|].
  destruct s2 as [|d s3]; [cbn [trim_start]; rewrite E1, E2; reflexivity|].
  destruct (ws3 b c d) eqn:E3; [apply (IH (length s3)); simpl; lia + reflexivity|].
  cbn [trim_start]. rewrite E1, E2, E3. reflexivity.
Qed.

Lemma trim_rev_idem (r : bytes) : trim_rev (trim_rev r) = trim_rev r.
Proof.
  remember (length r) as m eqn:Hm. revert r Hm.
  induction m as [m IH] using lt_wf_ind; intros r Hm; subst m.
  destruct r as [|b r1]; [reflexivity|]. cbn [trim_rev].
  destruct (ascii_ws b) eqn:E1; [apply (IH (length r1)); simpl; lia + reflexivity|].
  destruct r1 as [|c r2]; [cbn [trim_rev]; rewrite E1; reflexivity|].
  destruct (ws2 c b) eqn:E2; [apply (IH (length r2)); simpl; lia + reflexivity|].
  destruct r2 as [|d r3]; [cbn [trim_rev]; rewrite E1, E2; reflexivity|].
  destruct (ws3 d c b) eqn:E3; [apply (IH (length r3)); simpl; lia + reflexivity|].
  cbn [trim_rev]. rewrite E1, E2, E3. reflexivity.
Qed.

Lemma trim_start_suffix (s : bytes) : exists p, s = p ++ trim_start s.
Proof.
  remember (length s) as m eqn:Hm. revert s Hm.
  induction m as [m IH] using lt_wf_ind; intros s Hm; subst m.
  destruct s as [|b s1]; [exists []; reflexivity|]. cbn [trim_start].
  destruct (ascii_ws b).
  { destruct (IH (length s1) ltac:(simpl; lia) s1 eq_refl) as [p Hp].
    exists (b :: p). simpl. f_equal. exact Hp. }
  destruct s1 as [|c s2]; [exists []; reflexivity|].
  destruct (ws2 b c).
  { destruct (IH (length s2) ltac:(simpl; lia) s2 eq_refl) as [p Hp].
    exists (b :: c :: p). simpl. do 2 f_equal. exact Hp. }
  destruct s2 as [|d s3]; [exists []; reflexivity|].
  destruct (ws3 b c d); [|exists []; reflexivity].
  destruct (IH (length s3) ltac:(simpl; lia) s3 eq_refl) as [p Hp].
  exists (b :: c :: d :: p). simpl. do 3 f_equal. exact Hp.
Qed.

Lemma trim_rev_suffix (r : bytes) : exists p, r = p ++ trim_rev r.
Proof.
  remember (length r) as m eqn:Hm. revert r Hm.
  induction m as [m IH] using lt_wf_ind; intros r Hm; subst m.
  destruct r as [|b r1]; [exists []; reflexivity|]. cbn [trim_rev].
  destruct (ascii_ws b).
  { destruct (IH (length r1) ltac:(simpl; lia) r1 eq_refl) as [p Hp].
    exists (b :: p). simpl. f_equal. exact Hp. }
  destruct r1 as [|c r2]; [exists []; reflexivity|].
  destruct (ws2 c b).
  { destruct (IH (length r2) ltac:(simpl; lia) r2 eq_refl) as [p Hp].
    exists (b :: c :: p). simpl. do 2 f_equal. exact Hp. }
  destruct r2 as [|d r3]; [exists []; reflexivity|].
  destruct (ws3 d c b); [|exists []; reflexivity].
  destruct (IH (length r3) ltac:(simpl; lia) r3 eq_refl) as [p Hp].
  exists (b :: c :: d :: p). simpl. do 3 f_equal. exact Hp.
Qed.

Lemma trim_end_prefix (s : bytes) : exists q, s = trim_end s ++ q.
Proof.
  destruct (trim_rev_suffix (rev s)) as [p Hp]. exists (rev p).
  unfold trim_end. rewrite <- rev_app_distr, <- Hp, rev_involutive. reflexivity.
Qed.

Lemma trim_start_prefix (x q : bytes) :
  trim_start (x ++ q) = x ++ q -> trim_start x = x.
Proof.
  intros H. destruct x as [|b x1]; [reflexivity|].
  cbn [app trim_start] in H |- *.
  destruct (ascii_ws b).
  { pose proof (trim_start_length (x1 ++ q)) as L. rewrite H in L. simpl in L. lia. }
  destruct x1 as [|c x2]; [reflexivity|]. cbn [app] in H.
  destruct (ws2 b c).
  { pose proof (trim_start_length (x2 ++ q)) as L. rewrite H in L. simpl in L. lia. }
  destruct x2 as [|d x3]; [reflexivity|]. cbn [app] in H.
  destruct (ws3 b c d); [|reflexivity].
  pose proof (trim_start_length (x3 ++ q)) as L. rewrite H in L. simpl in L. lia.
Qed.

Lemma trim_idem (s : bytes) : trim (trim s) = trim s.
Proof.
  unfold trim at 1 2. set (z := trim_start s).
  assert (Hz : trim_start z = z) by apply trim_start_idem.
  destruct (trim_end_prefix z) as [q Hq].
  assert (Hs : trim_start (trim_end z) = trim_end z).
  { apply (trim_start_prefix _ q). rewrite <- Hq. exact Hz. }
  rewrite Hs. unfold trim_end. rewrite rev_involutive, trim_rev_idem. reflexivity.
Qed.

Lemma trim_forallb (P : byte -> bool) (s : bytes) :
  forallb P s = true -> forallb P (trim s) = true.
Proof.
  intros H. unfold trim.
  destruct (trim_start_suffix s) as [p Hp]. rewrite Hp, forallb_app in H.
  apply andb_true_iff in H as [_ H].
  destruct (trim_end_prefix (trim_start s)) as [q Hq]. rewrite Hq, forallb_app in H.
  apply andb_true_iff in H as [H _]. exact H.
Qed.

Lemma strip_go_no_backslash (l : bytes) :
  forallb (fun b => negb (is_bs b)) l = true -> strip_go l = Some l.
Proof.
  induction l as [|c l IH]; intros H; [reflexivity|].
  simpl in H. apply andb_true_iff in H as [H1 H2]. unfold is_bs in H1.
  simpl. destruct (Byte.eqb c x5c); [discriminate|]. rewrite (IH H2). reflexivity.
Qed.

(** ** Where the text of a child ends up in the written buffer *)

Lemma plain_app (x y : list piece) : plain (x ++ y) = plain x ++ plain y.
Proof. unfold plain. apply flat_map_app. Qed.

Lemma infix_trans (a b c : bytes) :
  (exists p q, b = p ++ a ++ q) -> (exists p q, c = p ++ b ++ q) ->
  exists p q, c = p ++ a ++ q.
Proof.
  intros [p1 [q1 H1]] [p2 [q2 H2]]. exists (p2 ++ p1), (q1 ++ q2).
  subst. rewrite <- !app_assoc. reflexivity.
Qed.

Lemma kid_pieces_cons (r : snode -> list piece) (ind : bool) (lvl : nat)
  (k : snode) (ks : list snode) :
  k <> SText [] ->
  kid_pieces r ind lvl (k :: ks) = Lit (indent_of ind lvl) :: r k ++ kid_pieces r ind lvl ks.
Proof. intros H. destruct k as [| |[|]]; try reflexivity. congruence. Qed.

Lemma kid_pieces_infix (r : snode -> list piece) (ind : bool) (lvl : nat)
  (k : snode) (ks : list snode) :
  In k ks -> k <> SText [] ->
  exists p q, plain (kid_pieces r ind lvl ks) = p ++ plain (r k) ++ q.
Proof.
  intros Hin Hk. induction ks as [|a ks IH]; [destruct Hin|].
  destruct Hin as [->|Hin].
  - rewrite kid_pieces_cons by exact Hk. cbn [plain flat_map].
    fold (plain (r k ++ kid_pieces r ind lvl ks)). rewrite plain_app.
    exists (indent_of ind lvl), (plain (kid_pieces r ind lvl ks)). reflexivity.
  - destruct (IH Hin) as [p [q Hpq]].
    assert (Hc : a = SText [] \/ a <> SText [])
      by (destruct a as [| |[|]]; [right | right | left | right]; congruence).
    destruct Hc as [->|Ha].
    + exists p, q. exact Hpq.
    + rewrite kid_pieces_cons by exact Ha. cbn [plain flat_map].
      fold (plain (r a ++ kid_pieces r ind lvl ks)). rewrite plain_app, Hpq.
      exists (plain_piece (Lit (indent_of ind lvl)) ++ plain (r a) ++ p), q.
      rewrite <- !app_assoc. reflexivity.
Qed.

Lemma render_elem_infix (ind : bool) (lvl : nat) (n : bytes)
  (a : list (bytes * bytes)) (kids : list snode) :
  exists p q, plain (render ind lvl (SElem n a kids))
              = p ++ plain (kid_pieces (render ind (S lvl)) ind (S lvl) kids) ++ q.
Proof.
  change (render ind lvl (SElem n a kids)) with
    (Lit (B "<" ++ n) :: flat_map attr_pieces a ++
     match kid_pieces (render ind (S lvl)) ind (S lvl) kids with
     | [] => [Lit (B "/>")]
     | _ => Lit (B ">") :: kid_pieces (render ind (S lvl)) ind (S lvl) kids
              ++ [Lit (indent_of ind lvl ++ B "</" ++ n ++ B ">")]
     end).
  destruct (kid_pieces (render ind (S lvl)) ind (S lvl) kids) as [|x xs].
  - eexists _, []. rewrite app_nil_r. reflexivity.
  - exists ((B "<" ++ n) ++ plain (flat_map attr_pieces a) ++ B ">"),
      (plain [Lit (indent_of ind lvl ++ B "</" ++ n ++ B ">")]).
    unfold plain. cbn [flat_map plain_piece].
    rewrite !flat_map_app. cbn [flat_map plain_piece].
    rewrite !flat_map_app. cbn [flat_map plain_piece].
    rewrite <- !app_assoc. reflexivity.
Qed.

Lemma filter_plain (t : bytes) :
  t <> [] ->
  plain (render true 2 (filter_node (mkFilter (B "subtree") t)))
  = FILTER_OPEN ++ indent_of true 3 ++ t ++ indent_of true 2 ++ B "</filter>".
Proof. intros H. destruct t as [|b t]; [congruence|]. reflexivity. Qed.

Lemma filter_plain_empty :
  plain (render true 2 (filter_node (mkFilter (B "subtree") [])))
  = B "<filter type=" ++ [x22] ++ B "subtree" ++ [x22] ++ B "/>".
Proof. reflexivity. Qed.

Lemma get_filter_node_infix (mid : bytes) (F : Filter) (w : option WithDefaults) :
  exists p q, plain (render true 0 (rpc_node (new_with_operation mid (Get (Some F) w))))
  = p ++ plain (render true 2 (filter_node F)) ++ q.
Proof.
  apply (infix_trans _ (plain (kid_pieces (render true 2) true 2
                                (filter_node F :: opt_node with_defaults_node w)))).
  { apply kid_pieces_infix; [left; reflexivity | discriminate]. }
  apply (infix_trans _ (plain (render true 1 (operation_node (Get (Some F) w))))).
  { exact (render_elem_infix true 1 (B "get") [] _). }
  apply (infix_trans _ (plain (kid_pieces (render true 1) true 1
                                [operation_node (Get (Some F) w)]))).
  { apply kid_pieces_infix; [left; reflexivity | discriminate]. }
  exact (render_elem_infix true 0 (B "rpc") _ _).
Qed.

Lemma get_config_filter_node_infix (mid : bytes) (F : Filter) (ds : Datastore)
  (w : option WithDefaults) :
  exists p q, plain (render true 0 (rpc_node (new_with_operation mid
                      (GetConfig ds (Some F) w))))
  = p ++ plain (render true 2 (filter_node F)) ++ q.
Proof.
  apply (infix_trans _ (plain (kid_pieces (render true 2) true 2
           (source_node ds :: filter_node F :: opt_node with_defaults_node w)))).
  { apply kid_pieces_infix; [right; left; reflexivity | discriminate]. }
  apply (infix_trans _ (plain (render true 1 (operation_node (GetConfig ds (Some F) w))))).
  { exact (render_elem_infix true 1 (B "get-config") [] _). }
  apply (infix_trans _ (plain (kid_pieces (render true 1) true 1
                                [operation_node (GetConfig ds (Some F) w)]))).
  { apply kid_pieces_infix; [left; reflexivity | discriminate]. }
  exact (render_elem_infix true 0 (B "rpc") _ _).
Qed.

Lemma get_lits_ok (mid t : bytes) (d : option WithDefaultsValue) :
  forallb lit_ok (render true 0 (rpc_node (new_with_operation mid
                    (new_get (Some (mkFilter (B "subtree") t)) d)))) = true.
Proof. destruct t as [|b t]; destruct d as [[]|]; reflexivity. Qed.

Lemma get_config_lits_ok (mid t : bytes) (ds : Datastore) (d : option WithDefaultsValue) :
  forallb lit_ok (render true 0 (rpc_node (new_with_operation mid
                    (new_get_config ds (Some (mkFilter (B "subtree") t)) d)))) = true.
Proof.
  destruct t as [|b t]; destruct ds as [| | |[|c u]]; destruct d as [[]|]; reflexivity.
Qed.

(** The serialised [get] and [get-config] envelopes carrying a subtree
    filter with text [t] contain the written [filter] element. *)
Lemma get_envelopes_filter (mid t : bytes) (ds : Datastore) (d : option WithDefaultsValue) :
  (exists pre post,
     rpc_to_string (new_with_operation mid (new_get (Some (mkFilter (B "subtree") t)) d))
     = Some (pre ++ plain (render true 2 (filter_node (mkFilter (B "subtree") t))) ++ post))
  /\ (exists pre post,
        rpc_to_string (new_with_operation mid
                         (new_get_config ds (Some (mkFilter (B "subtree") t)) d))
        = Some (pre ++ plain (render true 2 (filter_node (mkFilter (B "subtree") t)))
                ++ post)).
Proof.
  split.
  - unfold rpc_to_string. cbn [operation new_with_operation new_get].
    rewrite unescape_buffer by exact (get_lits_ok mid t d).
    destruct (get_filter_node_infix mid (mkFilter (B "subtree") t)
                (option_map (mkWithDefaults WITH_DEFAULTS_NS) d)) as [p [q H]].
    exists p, q. f_equal. exact H.
  - unfold rpc_to_string. cbn [operation new_with_operation new_get_config].
    rewrite unescape_buffer by exact (get_config_lits_ok mid t ds d).
    destruct (get_config_filter_node_infix mid (mkFilter (B "subtree") t) ds
                (option_map (mkWithDefaults WITH_DEFAULTS_NS) d)) as [p [q H]].
    exists p, q. f_equal. exact H.
Qed.

(** ** C4: the subtree filter text in the [get] and [get-config] envelopes *)

(** C4 (counterexample): a filter string that is blank once trimmed, here
    [" "], becomes an empty filter text; the [filter] element is then written
    self-closing, [<filter type="subtree"/>], and the envelope contains no
    [<filter type="subtree">] at all, so [S.trim()] (the empty string) does
    not appear between that tag and [</filter>]. *)
Lemma subtree_filter_blank :
  subtree (B " ") = Some (mkFilter (B "subtree") [])
  /\ option_map (search_in FILTER_OPEN)
       (rpc_to_string (new_with_operation (B "101") (new_get (subtree (B " ")) None)))
     = Some None
  /\ option_map (search_in (B "<filter type=" ++ [x22] ++ B "subtree" ++ [x22] ++ B "/>"))
       (rpc_to_string (new_with_operation (B "101") (new_get (subtree (B " ")) None)))
     = Some (Some 83).
Proof. vm_compute. repeat split. Qed.

(** C4 (amended): let [n] be [strip_slashes S], the trimmed [S] with each
    escape [\x] replaced by [x].  Then [subtree S] is the filter with the
    text [trim n].  When that text is non-empty, the serialised [get] and
    [get-config] envelopes (any message id, datastore and with-defaults)
    contain it verbatim, neither escaped nor otherwise altered, between
    [<filter type="subtree">] and [</filter>], set on its own line by the
    2-space indent; when it is empty, they contain the self-closing
    [<filter type="subtree"/>].  When [S] has no backslash the text is
    [S.trim()]. *)
Theorem subtree_filter_in_envelope (S n mid : bytes) (ds : Datastore)
  (d : option WithDefaultsValue) :
  strip_slashes S = Some n ->
  subtree S = Some (mkFilter (B "subtree") (trim n))
  /\ (0 < length (trim n) ->
      exists pre post,
        rpc_to_string (new_with_operation mid (new_get (subtree S) d))
        = Some (pre ++ FILTER_OPEN ++ indent_of true 3 ++ trim n
                ++ indent_of true 2 ++ B "</filter>" ++ post))
  /\ (0 < length (trim n) ->
      exists pre post,
        rpc_to_string (new_with_operation mid (new_get_config ds (subtree S) d))
        = Some (pre ++ FILTER_OPEN ++ indent_of true 3 ++ trim n
                ++ indent_of true 2 ++ B "</filter>" ++ post))
  /\ (trim n = [] ->
      (exists pre post,
         rpc_to_string (new_with_operation mid (new_get (subtree S) d))
         = Some (pre ++ B "<filter type=" ++ [x22] ++ B "subtree" ++ [x22] ++ B "/>"
                 ++ post))
      /\ (exists pre post,
            rpc_to_string (new_with_operation mid (new_get_config ds (subtree S) d))
            = Some (pre ++ B "<filter type=" ++ [x22] ++ B "subtree" ++ [x22] ++ B "/>"
                    ++ post)))
  /\ (forallb (fun b => negb (is_bs b)) S = true -> trim n = trim S).
Proof.
  intros Hs.
  assert (Hsub : subtree S = Some (mkFilter (B "subtree") (trim n)))
    by (unfold subtree; rewrite Hs; reflexivity).
  destruct (get_envelopes_filter mid (trim n) ds d) as [[p1 [q1 G]] [p2 [q2 C]]].
  rewrite Hsub. split; [reflexivity|]. split; [|split; [|split]].
  - intros Hlen.
    assert (Hn : trim n <> []) by (intros E; rewrite E in Hlen; simpl in Hlen; lia).
    rewrite (filter_plain _ Hn) in G. exists p1, q1. rewrite G, <- !app_assoc. reflexivity.
  - intros Hlen.
    assert (Hn : trim n <> []) by (intros E; rewrite E in Hlen; simpl in Hlen; lia).
    rewrite (filter_plain _ Hn) in C. exists p2, q2. rewrite C, <- !app_assoc. reflexivity.
  - intros He. rewrite He in G, C |- *. rewrite filter_plain_empty in G, C. split.
    + exists p1, q1. rewrite G, <- !app_assoc. reflexivity.
    + exists p2, q2. rewrite C, <- !app_assoc. reflexivity.
  - intros Hb. unfold strip_slashes in Hs.
    rewrite (strip_go_no_backslash _ (trim_forallb _ _ Hb)) in Hs.
    injection Hs as <-. apply trim_idem.
Qed.

Lemma subtree_filter_in_envelope_witness :
  (exists pre post,
     rpc_to_string (new_with_operation (B "7") (new_get (subtree (B " <a/> ")) None))
     = Some (pre ++ FILTER_OPEN ++ indent_of true 3 ++ B "<a/>"
             ++ indent_of true 2 ++ B "</filter>" ++ post))
  /\ (exists pre post,
        rpc_to_string (new_with_operation (B "7")
                         (new_get_config Running (subtree (B " ")) None))
        = Some (pre ++ B "<filter type=" ++ [x22] ++ B "subtree" ++ [x22] ++ B "/>"
                ++ post)).
Proof.
  split.
  - exact (proj1 (proj2 (subtree_filter_in_envelope (B " <a/> ") (B "<a/>") (B "7")
                           Running None eq_refl)) ltac:(vm_compute; lia)).
  - exact (proj2 (proj1 (proj2 (proj2 (proj2 (subtree_filter_in_envelope (B " ") []
                   (B "7") Running None eq_refl)))) eq_refl)).
Defined.

(** ** C5: parsing a datastore name *)

Lemma beq_true (a b : bytes) : beq a b = true <-> a = b.
Proof.
  unfold beq. destruct (list_eq_dec Byte.byte_eq_dec a b); split; congruence.
Qed.

(** C5: the result depends only on the lowercase form [l] of the input: the
    three names give their datastores, any other [l] beginning with [http],
    [file] or [ftp] gives [Url l], and every other input fails with an
    unknown-datastore error whose expected values are [running],
    [candidate], [startup] and [ftp|http|file].  With [to_lowercase] the
    ASCII lowercasing on ASCII text, [RUNNING], [CANDIDATE] and [StartUp]
    give [Running], [Candidate] and [Startup], and [https://x] gives
    [Url "https://x"]. *)
Theorem datastore_from_str_cases (to_lowercase : bytes -> bytes) :
  (forall s, forallb (fun b => (bv b <? 128)%N) s = true ->
             to_lowercase s = map ascii_lowercase s) ->
  (forall s, to_lowercase s = B "running" -> datastore_from_str to_lowercase s = Ok Running)
  /\ (forall s, to_lowercase s = B "candidate" ->
                datastore_from_str to_lowercase s = Ok Candidate)
  /\ (forall s, to_lowercase s = B "startup" ->
                datastore_from_str to_lowercase s = Ok Startup)
  /\ (forall s, ~ In (to_lowercase s) [B "running"; B "candidate"; B "startup"] ->
       starts_with (to_lowercase s) (B "http") || starts_with (to_lowercase s) (B "file")
       || starts_with (to_lowercase s) (B "ftp") = true ->
       datastore_from_str to_lowercase s = Ok (Url (to_lowercase s)))
  /\ (forall s, ~ In (to_lowercase s) [B "running"; B "candidate"; B "startup"] ->
       starts_with (to_lowercase s) (B "http") || starts_with (to_lowercase s) (B "file")
       || starts_with (to_lowercase s) (B "ftp") = false ->
       datastore_from_str to_lowercase s
       = Err (UnknownDatastore DATASTORE_EXPECTED (to_lowercase s)))
  /\ (forall s e, datastore_from_str to_lowercase s = Err e ->
                  e = UnknownDatastore DATASTORE_EXPECTED (to_lowercase s))
  /\ datastore_from_str to_lowercase (B "RUNNING") = Ok Running
  /\ datastore_from_str to_lowercase (B "CANDIDATE") = Ok Candidate
  /\ datastore_from_str to_lowercase (B "StartUp") = Ok Startup
  /\ datastore_from_str to_lowercase (B "https://x") = Ok (Url (B "https://x")).
Proof.
  intros Hlow.
  assert (Hgen : forall s, datastore_from_str to_lowercase s =
    if beq (to_lowercase s) (B "running") then Ok Running
    else if beq (to_lowercase s) (B "candidate") then Ok Candidate
    else if beq (to_lowercase s) (B "startup") then Ok Startup
    else if starts_with (to_lowercase s) (B "http") || starts_with (to_lowercase s) (B "file")
            || starts_with (to_lowercase s) (B "ftp")
    then Ok (Url (to_lowercase s))
    else Err (UnknownDatastore DATASTORE_EXPECTED (to_lowercase s)))
    by reflexivity.
  assert (Hnot : forall s, ~ In (to_lowercase s) [B "running"; B "candidate"; B "startup"] ->
            beq (to_lowercase s) (B "running") = false
            /\ beq (to_lowercase s) (B "candidate") = false
            /\ beq (to_lowercase s) (B "startup") = false).
  { intros s H. repeat split; apply not_true_iff_false; rewrite beq_true;
      intros E; apply H; rewrite E; simpl; tauto. }
  split; [intros s E; rewrite Hgen, E; reflexivity|].
  split; [intros s E; rewrite Hgen, E; reflexivity|].
  split; [intros s E; rewrite Hgen, E; reflexivity|].
  split; [intros s Hn Hp; rewrite Hgen; destruct (Hnot s Hn) as (-> & -> & ->);
          rewrite Hp; reflexivity|].
  split; [intros s Hn Hp; rewrite Hgen; destruct (Hnot s Hn) as (-> & -> & ->);
          rewrite Hp; reflexivity|].
  split.
  { intros s e H. rewrite Hgen in H.
    destruct (beq (to_lowercase s) (B "running")); [discriminate|].
    destruct (beq (to_lowercase s) (B "candidate")); [discriminate|].
    destruct (beq (to_lowercase s) (B "startup")); [discriminate|].
    destruct (_ || _); [discriminate|]. injection H as <-. reflexivity. }
  unfold datastore_from_str.
  rewrite !Hlow by reflexivity. repeat split.
Qed.

Lemma datastore_from_str_cases_witness :
  (forall s, forallb (fun b => (bv b <? 128)%N) s = true ->
             map ascii_lowercase s = map ascii_lowercase s)
  /\ datastore_from_str (map ascii_lowercase) (B "RUNNING") = Ok Running
  /\ datastore_from_str (map ascii_lowercase) (B "FTP://H/c") = Ok (Url (B "ftp://h/c")).
Proof.
  split; [intros s _; reflexivity|].
  split.
  - apply (datastore_from_str_cases (map ascii_lowercase)). intros s _. reflexivity.
  - apply (datastore_from_str_cases (map ascii_lowercase)).
    + intros s _. reflexivity.
    + intros [H|[H|[H|[]]]]; discriminate H.
    + reflexivity.
Defined.

(** ** Replies: [has_errors] and the [rpc-error] children *)

Lemma existsb_filter {A : Type} (f : A -> bool) (l : list A) :
  existsb f l = match List.filter f l with [] => false | _ => true end.
Proof.
  induction l as [|a l IH]; [reflexivity|]. simpl.
  destruct (f a); [reflexivity|exact IH].
Qed.

Lemma has_errors_decoded (x : xml) (r : RpcReply) :
  decode_rpc_reply x = Some r ->
  (has_errors r = true <-> existsb (named (B "rpc-error")) (kids_of x) = true).
Proof.
  intros H. destruct x as [n a ks|t]; [|discriminate]. cbn [kids_of].
  rewrite existsb_filter. unfold decode_rpc_reply in H.
  destruct (attr (B "message-id") (Elem n a ks)) as [mid|]; [|discriminate].
  destruct (seq_field (B "rpc-error") ks) as [errs|] eqn:E; [|discriminate].
  destruct (optional (field (B "ok") ks) unit_of) as [okv|]; [|discriminate].
  unfold seq_field in E.
  destruct errs as [xs|].
  - destruct (traverse decode_error xs); [|discriminate].
    injection H as <-. unfold has_errors. simpl.
    destruct (List.filter (named (B "rpc-error")) ks); [discriminate|].
    tauto.
  - injection H as <-. unfold has_errors. simpl.
    destruct (List.filter (named (B "rpc-error")) ks); [tauto|].
    destruct (Nat.leb _ 1); discriminate.
Qed.

(** ** C6: [has_errors] of a decoded reply *)

(** C6: for every reply document that decodes to an [RpcReply] [r],
    [has_errors r] holds iff the reply element has at least one
    [rpc-error] child. *)
Theorem has_errors_iff_rpc_error (x : xml) (r : RpcReply) :
  decode_rpc_reply x = Some r ->
  (has_errors r = true <-> existsb (named (B "rpc-error")) (kids_of x) = true).
Proof. apply has_errors_decoded. Qed.

Lemma has_errors_iff_rpc_error_witness :
  decode_rpc_reply (sample_reply [sample_rpc_error])
  = Some (mkRpcReply (B "101")
            (Some [mkError Error_ Protocol BadElement None None None None]) None)
  /\ (has_errors (mkRpcReply (B "101")
            (Some [mkError Error_ Protocol BadElement None None None None]) None) = true
      <-> existsb (named (B "rpc-error")) (kids_of (sample_reply [sample_rpc_error])) = true).
Proof.
  split; [reflexivity|]. apply has_errors_iff_rpc_error. reflexivity.
Defined.

(** ** C2: what [run_rpc] returns *)

(** C2: once the request [req] is written and the reply [response] read,
    [run_rpc] returns [response] itself when reply parsing is skipped;
    otherwise the reply is decoded, the call fails with [Netconf r] (the
    decoded reply) iff the reply has an [rpc-error] child, and else returns
    [response] unchanged; a reply that does not decode fails with a
    serializing error. *)
Theorem run_rpc_reply (parse_xml : bytes -> option xml) (conn : Connection)
  (rpc : Rpc) (req : bytes) (f : Framer) (response : bytes) :
  rpc_to_string rpc = Some req ->
  write_and_receive (transport conn) req = Some (f, Ok response) ->
  (skip_serializing conn = true ->
     run_rpc parse_xml conn rpc = Some (with_transport conn f, Ok response))
  /\ (forall x r, skip_serializing conn = false -> parse_xml response = Some x ->
        decode_rpc_reply x = Some r ->
        run_rpc parse_xml conn rpc
        = Some (with_transport conn f,
                if existsb (named (B "rpc-error")) (kids_of x) then Err (Netconf r)
                else Ok response))
  /\ (skip_serializing conn = false ->
      match parse_xml response with Some x => decode_rpc_reply x = None | None => True end ->
      run_rpc parse_xml conn rpc = Some (with_transport conn f, Err SerializingFailure)).
Proof.
  intros Hreq Hwr. unfold run_rpc. rewrite Hreq, Hwr.
  split; [|split].
  - intros ->. reflexivity.
  - intros x r -> Hx Hr. unfold from_str_reply. rewrite Hx. cbn [option_map negb].
    rewrite Hr. pose proof (has_errors_decoded x r Hr) as Hiff.
    destruct (has_errors r), (existsb (named (B "rpc-error")) (kids_of x));
      try reflexivity; exfalso; intuition discriminate.
  - intros -> Hx. unfold from_str_reply.
    destruct (parse_xml response) as [x|]; [|reflexivity].
    cbn [option_map negb]. rewrite Hx. reflexivity.
Qed.

Lemma run_rpc_reply_witness :
  exists f,
    rpc_to_string (call_rpc (B "101") CommitCall) = Some (B "<rpc message-id=" ++ [x22]
      ++ B "101" ++ [x22] ++ B " xmlns=" ++ [x22] ++ NETCONF_URN ++ [x22] ++ B ">"
      ++ [x0a; x20; x20] ++ B "<commit/>" ++ [x0a] ++ B "</rpc>")
    /\ run_rpc (fun _ => Some (sample_reply [sample_rpc_error]))
         (mkConnection (new_framer [B "<rpc-reply/>]]>]]>"]) None false false)
         (call_rpc (B "101") CommitCall)
       = Some (with_transport
                 (mkConnection (new_framer [B "<rpc-reply/>]]>]]>"]) None false false) f,
               Err (Netconf (mkRpcReply (B "101")
                  (Some [mkError Error_ Protocol BadElement None None None None]) None))).
Proof.
  eexists. split; [reflexivity|].
  refine (proj1 (proj2 (run_rpc_reply (fun _ => Some (sample_reply [sample_rpc_error]))
           (mkConnection (new_framer [B "<rpc-reply/>]]>]]>"]) None false false)
           (call_rpc (B "101") CommitCall) _ _ (B "<rpc-reply/>") _ _))
           (sample_reply [sample_rpc_error]) _ _ _ _);
    reflexivity.
Defined.

(** ** C9: the hello exchange *)

Lemma read_async_keeps (f f' : Framer) (r : result bytes) :
  read_async f = Some (f', r) -> upgraded f' = upgraded f /\ outbox f' = outbox f.
Proof.
  unfold read_async. destruct (upgraded f) eqn:U.
  - destruct (chunk_loop _ _ _) as [[[rb c] [e|]]|]; intros H; try discriminate;
      injection H as <- _; cbn; split; reflexivity.
  - destruct (eof_loop _ _ _) as [[rb c]|]; [|discriminate].
    destruct (search_in _ _); [|discriminate].
    intros H. injection H as <- _. cbn. split; reflexivity.
Qed.

Lemma write_and_receive_keeps (f f' : Framer) (req : bytes) (r : result bytes) :
  write_and_receive f req = Some (f', r) ->
  upgraded f' = upgraded f
  /\ outbox f' = outbox f ++ (if upgraded f then chunked_frame req
                              else req ++ NETCONF_1_0_TERMINATOR).
Proof.
  unfold write_and_receive, write_async. intros H.
  destruct (read_async_keeps _ _ _ H) as [U O]. rewrite U, O. cbn [upgraded outbox].
  split; [reflexivity|]. f_equal; destruct (upgraded f); reflexivity.
Qed.

(** C9: the client's hello lists the base 1.0 and base 1.1 capabilities and
    is written with the end-of-message framing; when the server's hello
    [h] is read and decoded, the new session's transport uses the chunked
    framing iff [h] lists [urn:ietf:params:netconf:base:1.1], and the
    session id is the one of [h]. *)
Theorem connection_new_hello (parse_xml : bytes -> option xml) (mid : bytes) (c : chan)
  (f : Framer) (resp : bytes) (x : xml) (h : Hello) :
  write_and_receive (new_framer c) (hello_to_string Hello_new) = Some (f, Ok resp) ->
  parse_xml resp = Some x -> decode_hello x = Some h ->
  capability Hello_new = [NETCONF_BASE_10_CAP; NETCONF_BASE_11_CAP]
  /\ hello_to_string Hello_new
     = B "<hello xmlns=" ++ [x22] ++ NETCONF_URN ++ [x22]
       ++ B "><capabilities><capability>" ++ NETCONF_BASE_10_CAP
       ++ B "</capability><capability>" ++ NETCONF_BASE_11_CAP
       ++ B "</capability></capabilities></hello>"
  /\ exists conn,
       connection_new parse_xml mid c = Some (Ok conn)
       /\ upgraded (transport conn) = has_capability h NETCONF_BASE_11_CAP
       /\ session_id conn = hello_session_id h
       /\ outbox (transport conn) = hello_to_string Hello_new ++ NETCONF_1_0_TERMINATOR.
Proof.
  intros Hwr Hx Hh. split; [reflexivity|]. split; [reflexivity|].
  destruct (write_and_receive_keeps _ _ _ _ Hwr) as [U O].
  cbn [upgraded outbox new_framer] in U, O.
  unfold connection_new, hello. cbn [transport].
  rewrite Hwr. unfold from_str_hello. rewrite Hx. cbn [option_map]. rewrite Hh.
  eexists. split; [reflexivity|]. cbn [transport session_id with_transport].
  destruct (has_capability h NETCONF_BASE_11_CAP); repeat split; cbn [upgraded outbox upgrade];
    assumption.
Qed.

Lemma connection_new_hello_witness :
  exists conn,
    connection_new (fun _ => Some sample_server_hello) (B "0") [B "<hello/>]]>]]>"]
    = Some (Ok conn)
    /\ upgraded (transport conn) = true /\ session_id conn = Some 4%N
    /\ outbox (transport conn) = hello_to_string Hello_new ++ NETCONF_1_0_TERMINATOR.
Proof.
  refine (proj2 (proj2 (connection_new_hello (fun _ => Some sample_server_hello) (B "0")
            [B "<hello/>]]>]]>"] _ (B "<hello/>") sample_server_hello
            (mkHello NETCONF_URN [NETCONF_BASE_11_CAP] (Some 4%N)) _ _ _)));
    reflexivity.
Defined.

(** ** C8: the closed flag *)

Lemma run_rpc_effect (parse_xml : bytes -> option xml) (conn : Connection) (rpc : Rpc)
  (conn' : Connection) (r : result bytes) :
  run_rpc parse_xml conn rpc = Some (conn', r) ->
  exists req, rpc_to_string rpc = Some req
    /\ is_closed conn' = is_closed conn
    /\ outbox (transport conn')
       = outbox (transport conn) ++ framed (upgraded (transport conn)) req.
Proof.
  unfold run_rpc. cbv zeta. destruct (rpc_to_string rpc) as [req|]; [|discriminate].
  intros H. exists req. split; [reflexivity|].
  destruct (write_and_receive (transport conn) req) as [[f x]|] eqn:W; [|discriminate].
  destruct (write_and_receive_keeps _ _ _ _ W) as [_ O].
  assert (E : conn' = with_transport conn f).
  { destruct x as [resp|e]; [|injection H as <- _; reflexivity].
    destruct (negb (skip_serializing conn)); [|injection H as <- _; reflexivity].
    destruct (from_str_reply parse_xml resp) as [reply|e]; [|injection H as <- _; reflexivity].
    destruct (has_errors reply); injection H as <- _; reflexivity. }
  subst conn'. split; [reflexivity|]. exact O.
Qed.

Lemma call_as_run_rpc (parse_xml : bytes -> option xml) (conn : Connection)
  (mid : bytes) (c : Call) :
  call parse_xml conn mid c
  = run_rpc parse_xml (if closes c then set_closed conn else conn) (call_rpc mid c).
Proof. destruct c; reflexivity. Qed.

Lemma call_effect (parse_xml : bytes -> option xml) (conn : Connection) (mid : bytes)
  (c : Call) (conn' : Connection) (r : result bytes) :
  call parse_xml conn mid c = Some (conn', r) ->
  exists req, rpc_to_string (call_rpc mid c) = Some req
    /\ is_closed conn' = is_closed conn || closes c
    /\ outbox (transport conn')
       = outbox (transport conn) ++ framed (upgraded (transport conn)) req.
Proof.
  rewrite call_as_run_rpc. intros H.
  destruct (run_rpc_effect _ _ _ _ _ H) as (req & Hreq & C & O).
  exists req. split; [exact Hreq|].
  destruct (closes c); rewrite C, O; cbn; [rewrite orb_true_r|rewrite orb_false_r];
    split; reflexivity.
Qed.

Lemma step_keeps_closed (parse_xml : bytes -> option xml) (conn conn' : Connection) (op : Op) :
  is_closed conn = true -> step parse_xml conn op conn' -> is_closed conn' = true.
Proof.
  intros Hc Hs. inversion Hs as [c0 c1 mid c r E| c0 c1 mid s t r sent N| c0]; subst.
  - destruct (call_effect _ _ _ _ _ _ E) as (_ & _ & C & _). rewrite C, Hc. reflexivity.
  - inversion N as [c2 e E| c2 resp f sent' r' E L]; subst.
    + destruct (run_rpc_effect _ _ _ _ _ E) as (_ & _ & C & _). rewrite C. exact Hc.
    + destruct (run_rpc_effect _ _ _ _ _ E) as (_ & _ & C & _). cbn. rewrite C. exact Hc.
  - exact Hc.
Qed.

Lemma run_ops_keeps_closed (parse_xml : bytes -> option xml) (conn : Connection)
  (ops : list Op) (conn' : Connection) :
  run_ops parse_xml conn ops conn' -> is_closed conn = true -> is_closed conn' = true.
Proof.
  induction 1 as [c|c c1 c' op ops S _ IH]; intros Hc; [exact Hc|].
  exact (IH (step_keeps_closed _ _ _ _ Hc S)).
Qed.

Lemma run_rpc_set_closed (parse_xml : bytes -> option xml) (conn : Connection) (rpc : Rpc) :
  run_rpc parse_xml (set_closed conn) rpc
  = option_map (fun p => (set_closed (fst p), snd p)) (run_rpc parse_xml conn rpc).
Proof.
  unfold run_rpc. cbv zeta. cbn [transport skip_serializing set_closed].
  destruct (rpc_to_string rpc) as [req|]; [|reflexivity].
  destruct (write_and_receive (transport conn) req) as [[f [resp|e]]|]; [|reflexivity|reflexivity].
  destruct (negb (skip_serializing conn)); [|reflexivity].
  destruct (from_str_reply parse_xml resp) as [reply|e]; [|reflexivity].
  destruct (has_errors reply); reflexivity.
Qed.

(** C8 (counterexample): after [close_session] the flag is set, yet a later
    [commit] on the same session is still written to the transport and
    returns the server's reply. *)
Lemma closed_session_still_issues :
  exists c1 c2,
    call (fun _ => Some (sample_reply [])) sample_conn (B "1") CloseSessionCall
    = Some (c1, Ok (B "<rpc-reply/>"))
    /\ is_closed c1 = true
    /\ call (fun _ => Some (sample_reply [])) c1 (B "2") CommitCall
       = Some (c2, Ok (B "<rpc-reply><ok/></rpc-reply>"))
    /\ is_closed c2 = true
    /\ exists req, rpc_to_string (call_rpc (B "2") CommitCall) = Some req
         /\ outbox (transport c2) = outbox (transport c1) ++ req ++ NETCONF_1_0_TERMINATOR.
Proof.
  do 2 eexists. split; [reflexivity|]. split; [reflexivity|].
  split; [reflexivity|]. split; [reflexivity|].
  eexists. split; reflexivity.
Qed.

(** C8 (amended): [close_session] and [kill_session] set the closed flag
    (before their RPC is sent); once set, no operation (a call, a
    notification subscription, [set_skip_serializing]) clears it; but the
    flag guards nothing except [Drop]: every call writes its request to the
    transport; the transport and the result of a call are the same whether
    the session is closed or not; a call whose reply is read and is not an
    [rpc-error] reply returns the server's reply; and dropping a closed
    session sends nothing. *)
Theorem closed_flag (parse_xml : bytes -> option xml) :
  (forall conn mid c conn' r, closes c = true ->
     call parse_xml conn mid c = Some (conn', r) -> is_closed conn' = true)
  /\ (forall conn ops conn', is_closed conn = true ->
        run_ops parse_xml conn ops conn' -> is_closed conn' = true)
  /\ (forall conn mid c conn' r, call parse_xml conn mid c = Some (conn', r) ->
        exists req, rpc_to_string (call_rpc mid c) = Some req
          /\ outbox (transport conn')
             = outbox (transport conn) ++ framed (upgraded (transport conn)) req)
  /\ (forall conn mid c,
        option_map (fun p => (transport (fst p), snd p))
          (call parse_xml (set_closed conn) mid c)
        = option_map (fun p => (transport (fst p), snd p)) (call parse_xml conn mid c))
  /\ (forall conn mid c req f response,
        rpc_to_string (call_rpc mid c) = Some req ->
        write_and_receive (transport conn) req = Some (f, Ok response) ->
        (skip_serializing conn = true
         \/ exists x r, parse_xml response = Some x /\ decode_rpc_reply x = Some r
              /\ existsb (named (B "rpc-error")) (kids_of x) = false) ->
        call parse_xml conn mid c
        = Some (with_transport (if closes c then set_closed conn else conn) f, Ok response))
  /\ (forall conn mid, is_closed conn = true -> drop parse_xml conn mid = Some conn).
Proof.
  split; [|split; [|split; [|split; [|split]]]].
  - intros conn mid c conn' r Hcl H.
    destruct (call_effect _ _ _ _ _ _ H) as (_ & _ & C & _).
    rewrite C, Hcl. apply orb_true_r.
  - intros conn ops conn' Hc H. exact (run_ops_keeps_closed _ _ _ _ H Hc).
  - intros conn mid c conn' r H.
    destruct (call_effect _ _ _ _ _ _ H) as (req & Hreq & _ & O).
    exists req. split; assumption.
  - intros conn mid c. rewrite !call_as_run_rpc. destruct (closes c); [reflexivity|].
    rewrite run_rpc_set_closed. destruct (run_rpc parse_xml conn _) as [[c1 r]|]; reflexivity.
  - intros conn mid c req f response Hreq W Hd. rewrite call_as_run_rpc.
    assert (T : transport (if closes c then set_closed conn else conn) = transport conn)
      by (destruct (closes c); reflexivity).
    assert (S : skip_serializing (if closes c then set_closed conn else conn)
                = skip_serializing conn) by (destruct (closes c); reflexivity).
    unfold run_rpc. rewrite Hreq, T, W. cbv zeta. rewrite S.
    destruct Hd as [Hs|(x & r & Hp & Hx & He)]; [rewrite Hs; reflexivity|].
    destruct (negb (skip_serializing conn)); [|reflexivity].
    unfold from_str_reply. rewrite Hp. cbn [option_map]. rewrite Hx.
    destruct (has_errors r) eqn:Eh; [|reflexivity].
    apply (has_errors_decoded _ _ Hx) in Eh. rewrite He in Eh. discriminate.
  - intros conn mid Hc. unfold drop. rewrite Hc. reflexivity.
Qed.

Lemma closed_flag_witness :
  (exists conn',
     call (fun _ => Some (sample_reply [])) (set_closed sample_conn) (B "2") CommitCall
     = Some (conn', Ok (B "<rpc-reply/>")) /\ is_closed conn' = true)
  /\ (exists conn',
        run_ops (fun _ => Some (sample_reply [])) (set_closed sample_conn)
          [DoCall (B "2") CommitCall; DoSetSkipSerializing] conn'
        /\ is_closed conn' = true)
  /\ drop (fun _ => None) (set_closed sample_conn) (B "3") = Some (set_closed sample_conn).
Proof.
  split; [|split].
  - eexists. split.
    refine (proj1 (proj2 (proj2 (proj2 (proj2
              (closed_flag (fun _ => Some (sample_reply [])))))))
              (set_closed sample_conn) (B "2") CommitCall _ _ (B "<rpc-reply/>") eq_refl
              eq_refl _).
    + right. exists (sample_reply []). eexists. split; [reflexivity|]. split; reflexivity.
    + reflexivity.
  - eexists. split.
    + eapply Run_cons; [eapply Step_call; reflexivity|].
      eapply Run_cons; [apply Step_skip|]. apply Run_nil.
    + apply (proj1 (proj2 (closed_flag (fun _ => Some (sample_reply []))))
               (set_closed sample_conn) [DoCall (B "2") CommitCall; DoSetSkipSerializing]).
      * reflexivity.
      * eapply Run_cons; [eapply Step_call; reflexivity|].
        eapply Run_cons; [apply Step_skip|]. apply Run_nil.
  - apply (closed_flag (fun _ => None)). reflexivity.
Defined.

(* ================================================================== *)
(** * Further properties of the code *)

(** ** [AsyncFramer::read_async] in 1.0 mode *)

Lemma eof_read_at (rb o : bytes) (c : chan) (pos : nat) :
  Forall (fun s => s <> []) c ->
  search_in NETCONF_1_0_TERMINATOR (rb ++ chan_bytes c) = Some pos ->
  exists f', read_async (mkFramer rb false c o)
             = Some (f', Ok (trim_end (from_utf8_lossy
                                         (firstn pos (rb ++ chan_bytes c)))))
             /\ read_buffer f' ++ chan_bytes (inbox f')
                = skipn (pos + 6) (rb ++ chan_bytes c)
             /\ upgraded f' = false /\ outbox f' = o.
Proof.
  intros Hne Hs.
  destruct (eof_loop_finds (S (chan_size c)) rb c pos Hne (Nat.lt_succ_diag_r _) Hs)
    as [rb' [c' [E1 [E2 E3]]]].
  pose proof (search_in_bound _ _ _ E3) as Hb. simpl in Hb.
  exists (mkFramer (skipn (pos + 6) rb') false c' o).
  unfold read_async. cbn [upgraded read_buffer inbox outbox].
  rewrite E1, E3. split; [|split; [|split]]; try reflexivity.
  - rewrite <- E2, firstn_app.
    replace (pos - length rb') with 0 by lia. rewrite app_nil_r. reflexivity.
  - cbn [read_buffer inbox]. rewrite <- E2, skipn_app.
    replace (pos + 6 - length rb') with 0 by lia. reflexivity.
Qed.

Lemma search_in_none_prefix (p l x : bytes) :
  search_in p (l ++ x) = None -> search_in p l = None.
Proof.
  intros H. destruct (search_in p l) as [i|] eqn:E; [|reflexivity].
  rewrite (search_in_app _ _ _ _ E) in H. discriminate.
Qed.

Lemma eof_loop_none (fuel : nat) :
  forall rb c, search_in NETCONF_1_0_TERMINATOR (rb ++ chan_bytes c) = None ->
  eof_loop fuel rb c = None.
Proof.
  induction fuel as [|fuel IH]; intros rb c H.
  - cbn [eof_loop]. rewrite (search_in_none_prefix _ _ _ H). reflexivity.
  - rewrite eof_loop_step, (search_in_none_prefix _ _ _ H).
    destruct c as [|s c']; [reflexivity|]. cbn [read_256].
    destruct (firstn 256 s) as [|b bs] eqn:Hfs; [reflexivity|].
    apply IH. rewrite chan_bytes_push, <- Hfs, <- app_assoc,
      (app_assoc (firstn 256 s)), firstn_skipn.
    exact H.
Qed.

(** X1: in 1.0 mode a message [M] written by [write_async] is read back up
    to the first ["]]>]]>"] of the stream: when that is the terminator the
    writer appended, the read returns [M.trim_end()] (for valid UTF-8 [M]);
    when [M] itself contains ["]]>]]>"] (possibly ending in a prefix of
    it), the message is cut there and the rest of [M] stays in the
    stream.  Whatever follows is left for the next read. *)
Theorem eof_framer_roundtrip (M rest o : bytes) (segs : chan) (p : nat) :
  Forall (fun s => s <> []) segs ->
  chan_bytes segs = outbox (fst (write_async (new_framer []) M)) ++ rest ->
  search_in NETCONF_1_0_TERMINATOR (M ++ NETCONF_1_0_TERMINATOR) = Some p ->
  (exists f', read_async (mkFramer [] false segs o)
              = Some (f', Ok (trim_end (from_utf8_lossy (firstn p M))))
              /\ read_buffer f' ++ chan_bytes (inbox f')
                 = skipn (p + 6) (M ++ NETCONF_1_0_TERMINATOR ++ rest))
  /\ (p = length M -> valid_utf8 M = true ->
      exists f', read_async (mkFramer [] false segs o) = Some (f', Ok (trim_end M))
                 /\ read_buffer f' ++ chan_bytes (inbox f') = rest).
Proof.
  intros Hne Hc Hp. cbn [write_async new_framer upgraded outbox fst app] in Hc.
  assert (Hs : search_in NETCONF_1_0_TERMINATOR ([] ++ chan_bytes segs) = Some p).
  { rewrite Hc, app_assoc. apply search_in_app. exact Hp. }
  pose proof (search_in_bound _ _ _ Hp) as Hb. rewrite length_app in Hb. simpl in Hb.
  destruct (eof_read_at [] o segs p Hne Hs) as [f' [E1 [E2 _]]].
  assert (F : forall x, firstn p (M ++ x) = firstn p M).
  { intros x. rewrite firstn_app. replace (p - length M) with 0 by lia.
    apply app_nil_r. }
  rewrite Hc in E1, E2. cbn [app] in E1, E2. rewrite <- app_assoc in E1, E2.
  rewrite F in E1. split.
  - exists f'. split; [exact E1|exact E2].
  - intros -> Hv. exists f'. split.
    + rewrite E1, firstn_all, from_utf8_lossy_valid by exact Hv. reflexivity.
    + rewrite E2, skipn_app. replace (length M + 6 - length M) with 6 by lia.
      rewrite skipn_all2 by lia. reflexivity.
Qed.

Lemma eof_framer_roundtrip_witness :
  Forall (fun s => s <> []) [B "<a/>]]>]]>"; B "]]>x"]
  /\ chan_bytes [B "<a/>]]>]]>"; B "]]>x"]
     = outbox (fst (write_async (new_framer []) (B "<a/>]]>"))) ++ B "x"
  /\ search_in NETCONF_1_0_TERMINATOR (B "<a/>]]>" ++ NETCONF_1_0_TERMINATOR) = Some 4
  /\ (exists f', read_async (mkFramer [] false [B "<a/>]]>]]>"; B "]]>x"] [])
              = Some (f', Ok (trim_end (from_utf8_lossy (firstn 4 (B "<a/>]]>")))))
              /\ read_buffer f' ++ chan_bytes (inbox f')
                 = skipn (4 + 6) (B "<a/>]]>" ++ NETCONF_1_0_TERMINATOR ++ B "x")).
Proof.
  split; [repeat constructor; discriminate|]. split; [reflexivity|].
  split; [reflexivity|].
  apply (eof_framer_roundtrip (B "<a/>]]>") (B "x") [] [B "<a/>]]>]]>"; B "]]>x"] 4);
    [repeat constructor; discriminate | reflexivity | reflexivity].
Defined.

(** X2: in 1.0 mode, when neither the buffered bytes nor the rest of the
    stream contain ["]]>]]>"], [read_async] never returns: at end of stream
    [read] returns 0 bytes and the loop spins. *)
Theorem eof_framer_hangs (rb o : bytes) (c : chan) :
  search_in NETCONF_1_0_TERMINATOR (rb ++ chan_bytes c) = None ->
  read_async (mkFramer rb false c o) = None.
Proof.
  intros H. unfold read_async. cbn [upgraded read_buffer inbox].
  rewrite (eof_loop_none _ rb c H). reflexivity.
Qed.

Lemma eof_framer_hangs_witness :
  search_in NETCONF_1_0_TERMINATOR (B "<a/>]]>" ++ chan_bytes [B "]]"]) = None
  /\ read_async (mkFramer (B "<a/>]]>") false [B "]]"] []) = None.
Proof.
  split; [reflexivity|]. apply eof_framer_hangs. reflexivity.
Defined.

(** ** [AsyncFramer::read_async] in 1.1 mode: several chunks *)

Lemma chunk_of_length (l : bytes) : 3 <= length (chunk_of l).
Proof. unfold chunk_of. rewrite !length_app. simpl. lia. Qed.

Lemma flat_map_chunk_of_length (chunks : list bytes) :
  length chunks <= length (flat_map chunk_of chunks).
Proof.
  induction chunks as [|l ls IH]; [simpl; lia|].
  cbn [flat_map]. rewrite length_app. pose proof (chunk_of_length l). simpl. lia.
Qed.

Lemma chunk_loop_chunks (chunks : list bytes) :
  forall fuel rb c tail,
  Forall (fun l => (0 < N.of_nat (length l) < 2 ^ 32)%N) chunks ->
  chan_bytes c = flat_map chunk_of chunks ++ tail ->
  length chunks < fuel ->
  exists c', chan_bytes c' = tail
    /\ chunk_loop fuel rb c = chunk_loop (fuel - length chunks) (rb ++ concat chunks) c'.
Proof.
  induction chunks as [|l ls IH]; intros fuel rb c tail Hf Hc Hl.
  - exists c. split; [exact Hc|]. rewrite app_nil_r, Nat.sub_0_r. reflexivity.
  - inversion Hf as [|? ? HL Hf']; subst.
    destruct fuel as [|fuel]; [simpl in Hl; lia|].
    destruct (read_header_digits (dec_bytes (N.of_nat (length l)))
                (l ++ flat_map chunk_of ls ++ tail) c) as [c1 [H1 H2]].
    + apply dec_bytes_digits.
    + rewrite Hc. cbn [flat_map]. unfold chunk_of. now rewrite <- !app_assoc.
    + rewrite dec_bytes_value in H1. unfold u32_wrap in H1.
      rewrite N.mod_small in H1 by lia.
      destruct (read_exact_ok (length l) c1) as [c2 [H3 H4]].
      { unfold chan_size. rewrite H2, length_app. lia. }
      rewrite H2, firstn_app, firstn_all, Nat.sub_diag in H3. cbn [firstn] in H3.
      rewrite app_nil_r in H3.
      rewrite H2, skipn_app, skipn_all, Nat.sub_diag in H4. cbn [skipn app] in H4.
      rewrite chunk_loop_step, H1.
      replace ((N.of_nat (length l) =? 0)%N) with false by (symmetry; apply N.eqb_neq; lia).
      rewrite Nat2N.id, H3.
      destruct (IH fuel (rb ++ l) c2 tail Hf' H4 ltac:(simpl in Hl; lia)) as [c' [E1 E2]].
      exists c'. split; [exact E1|]. rewrite E2. cbn [length concat].
      rewrite app_assoc. reflexivity.
Qed.

(** In 1.1 mode, the chunks before the end-of-chunks marker are appended
    to the read buffer and the message is returned. *)
Lemma chunked_read_chunks_gen (rb o rest : bytes) (segs : chan) (chunks : list bytes) :
  Forall (fun l => (0 < N.of_nat (length l) < 2 ^ 32)%N) chunks ->
  chan_bytes segs = flat_map chunk_of chunks ++ [x0a; x23; x23; x0a] ++ rest ->
  exists f', read_async (mkFramer rb true segs o)
             = Some (f', Ok (trim_end (from_utf8_lossy (rb ++ concat chunks))))
             /\ read_buffer f' = [] /\ chan_bytes (inbox f') = rest
             /\ upgraded f' = true /\ outbox f' = o.
Proof.
  intros Hf Hc.
  assert (Hl : length chunks < S (chan_size segs)).
  { unfold chan_size. rewrite Hc, length_app.
    pose proof (flat_map_chunk_of_length chunks). lia. }
  destruct (chunk_loop_chunks chunks (S (chan_size segs)) rb segs _ Hf Hc Hl)
    as [c' [E1 E2]].
  destruct (read_header_end rest c' E1) as [c'' [H1 H2]].
  assert (Hk : exists k, S (chan_size segs) - length chunks = S k).
  { exists (chan_size segs - length chunks). unfold chan_size in Hl |- *. lia. }
  destruct Hk as [k Hk].
  unfold read_async. cbn [upgraded read_buffer inbox outbox].
  rewrite E2, Hk, chunk_loop_step, H1. cbn.
  eexists. split; [reflexivity|]. cbn. repeat split; [exact H2].
Qed.

(** The three ways a chunk header fails on a malformed byte. *)
Lemma read_header_malformed (tail rest : bytes) (e : NetconfClientError) (c : chan) :
  ((exists x y, tail = x :: y :: rest /\ Byte.eqb x x0a = false
                /\ e = MalformedChunk x0a x)
   \/ (exists y, tail = x0a :: y :: rest /\ Byte.eqb y x23 = false
                 /\ e = MalformedChunk x23 y)
   \/ (exists ds z, tail = [x0a; x23] ++ ds ++ z :: rest
        /\ forallb (fun b => is_ascii_digit b || Byte.eqb b x23) ds = true
        /\ is_ascii_digit z = false /\ Byte.eqb z x23 = false /\ Byte.eqb z x0a = false
        /\ e = MalformedChunk x30 z)) ->
  chan_bytes c = tail ->
  exists c', read_header c = Some (c', Err e) /\ chan_bytes c' = rest.
Proof.
  intros [(x & y & -> & Hx & ->)|[(y & -> & Hy & ->)|(ds & z & -> & Hds & Hz1 & Hz2 & Hz3 & ->)]] Hc.
  - destruct (read_exact_2 x y rest c Hc) as [c1 [H1 H2]].
    exists c1. split; [|exact H2]. unfold read_header. rewrite H1. cbn [nth].
    rewrite Hx. reflexivity.
  - destruct (read_exact_2 x0a y rest c Hc) as [c1 [H1 H2]].
    exists c1. split; [|exact H2]. unfold read_header. rewrite H1. cbn [nth].
    rewrite Hy. reflexivity.
  - destruct (read_exact_2 x0a x23 (ds ++ z :: rest) c Hc) as [c1 [H1 H2]].
    destruct (header_loop_general ds (S (chan_size c1)) 0 c1 z rest Hds Hz1 Hz2 H2)
      as [c2 [H3 H4]].
    { unfold chan_size. rewrite H2, length_app. simpl. lia. }
    exists c2. split; [|exact H3]. unfold read_header. rewrite H1. cbn [nth].
    rewrite H4, Hz3. reflexivity.
Qed.

(** X3: in 1.1 mode a message sent as any number of chunks is reassembled:
    [read_async] returns the bytes of all chunks in order, appended to
    whatever its read buffer already held, decoded lossily as UTF-8 and
    trimmed at the end; the buffer is then emptied and the bytes after the
    end-of-chunks marker are left in the stream. *)
Theorem chunked_read_chunks (rb o rest : bytes) (segs : chan) (chunks : list bytes) :
  Forall (fun l => (0 < N.of_nat (length l) < 2 ^ 32)%N) chunks ->
  chan_bytes segs = flat_map chunk_of chunks ++ [x0a; x23; x23; x0a] ++ rest ->
  exists f', read_async (mkFramer rb true segs o)
             = Some (f', Ok (trim_end (from_utf8_lossy (rb ++ concat chunks))))
             /\ read_buffer f' = [] /\ chan_bytes (inbox f') = rest
             /\ upgraded f' = true /\ outbox f' = o.
Proof. apply chunked_read_chunks_gen. Qed.

Lemma chunked_read_chunks_witness :
  Forall (fun l => (0 < N.of_nat (length l) < 2 ^ 32)%N) [B "<a>"; B "</a>"]
  /\ chan_bytes [chunk_of (B "<a>") ++ chunk_of (B "</a>"); [x0a; x23; x23; x0a]]
     = flat_map chunk_of [B "<a>"; B "</a>"] ++ [x0a; x23; x23; x0a] ++ []
  /\ exists f', read_async (mkFramer (B "x") true
                  [chunk_of (B "<a>") ++ chunk_of (B "</a>"); [x0a; x23; x23; x0a]] [])
             = Some (f', Ok (trim_end (from_utf8_lossy (B "x" ++ concat [B "<a>"; B "</a>"]))))
             /\ read_buffer f' = [] /\ chan_bytes (inbox f') = []
             /\ upgraded f' = true /\ outbox f' = [].
Proof.
  split; [repeat constructor; vm_compute; reflexivity|]. split; [reflexivity|].
  apply chunked_read_chunks; [repeat constructor; vm_compute; reflexivity | reflexivity].
Defined.

(** X4: a chunked read that fails on a malformed chunk header after some
    chunks were read (the header does not start with ['\n'], its second
    byte is not ['#'], or a byte after ["\n#"] is neither a digit, ['#'] nor
    ['\n']) returns the [MalformedChunk] error, consumes the header bytes
    up to the bad byte, and keeps the chunks read so far in the framer's
    read buffer (the buffer is only emptied on success): they are prepended
    to the next message read from that framer. *)
Theorem chunked_read_error_keeps_buffer (rb o tail rest : bytes) (segs : chan)
  (chunks : list bytes) (e : NetconfClientError) :
  Forall (fun l => (0 < N.of_nat (length l) < 2 ^ 32)%N) chunks ->
  chan_bytes segs = flat_map chunk_of chunks ++ tail ->
  ((exists x y, tail = x :: y :: rest /\ Byte.eqb x x0a = false
                /\ e = MalformedChunk x0a x)
   \/ (exists y, tail = x0a :: y :: rest /\ Byte.eqb y x23 = false
                 /\ e = MalformedChunk x23 y)
   \/ (exists ds z, tail = [x0a; x23] ++ ds ++ z :: rest
        /\ forallb (fun b => is_ascii_digit b || Byte.eqb b x23) ds = true
        /\ is_ascii_digit z = false /\ Byte.eqb z x23 = false /\ Byte.eqb z x0a = false
        /\ e = MalformedChunk x30 z)) ->
  exists c', read_async (mkFramer rb true segs o)
             = Some (mkFramer (rb ++ concat chunks) true c' o, Err e)
    /\ chan_bytes c' = rest
    /\ (forall chunks2 rest2,
          Forall (fun l => (0 < N.of_nat (length l) < 2 ^ 32)%N) chunks2 ->
          rest = flat_map chunk_of chunks2 ++ [x0a; x23; x23; x0a] ++ rest2 ->
          exists f'', read_async (mkFramer (rb ++ concat chunks) true c' o)
            = Some (f'', Ok (trim_end (from_utf8_lossy
                                         (rb ++ concat chunks ++ concat chunks2))))).
Proof.
  intros Hf Hc Ht.
  assert (Hl : length chunks < S (chan_size segs)).
  { unfold chan_size. rewrite Hc, length_app.
    pose proof (flat_map_chunk_of_length chunks). lia. }
  destruct (chunk_loop_chunks chunks (S (chan_size segs)) rb segs _ Hf Hc Hl)
    as [c' [E1 E2]].
  destruct (read_header_malformed tail rest e c' Ht E1) as [c'' [H1 H2]].
  assert (Hk : exists k, S (chan_size segs) - length chunks = S k).
  { exists (chan_size segs - length chunks). unfold chan_size in Hl |- *. lia. }
  destruct Hk as [k Hk].
  exists c''. split; [|split; [exact H2|]].
  - unfold read_async. cbn [upgraded read_buffer inbox outbox].
    rewrite E2, Hk, chunk_loop_step, H1. reflexivity.
  - intros chunks2 rest2 Hf2 Hr.
    rewrite Hr in H2.
    destruct (chunked_read_chunks_gen (rb ++ concat chunks) o rest2 c'' chunks2 Hf2 H2)
      as [f'' [R _]].
    exists f''. rewrite R, <- app_assoc. reflexivity.
Qed.

Lemma chunked_read_error_keeps_buffer_witness :
  exists c', read_async (mkFramer [] true
                [chunk_of (B "<a/>") ++ [x0a; x23] ++ B "1x" ++ chunk_of (B "<b/>")
                 ++ [x0a; x23; x23; x0a]] [])
             = Some (mkFramer ([] ++ concat [B "<a/>"]) true c' [],
                     Err (MalformedChunk x30 x78))
    /\ exists f'', read_async (mkFramer ([] ++ concat [B "<a/>"]) true c' [])
                   = Some (f'', Ok (trim_end (from_utf8_lossy
                                               ([] ++ concat [B "<a/>"]
                                                ++ concat [B "<b/>"])))).
Proof.
  destruct (chunked_read_error_keeps_buffer [] [] ([x0a; x23] ++ B "1x" ++ chunk_of (B "<b/>")
              ++ [x0a; x23; x23; x0a]) (chunk_of (B "<b/>") ++ [x0a; x23; x23; x0a])
              [chunk_of (B "<a/>") ++ [x0a; x23] ++ B "1x" ++ chunk_of (B "<b/>")
               ++ [x0a; x23; x23; x0a]] [B "<a/>"] (MalformedChunk x30 x78))
    as [c' [H1 [_ H3]]].
  - repeat constructor; vm_compute; reflexivity.
  - reflexivity.
  - right. right. exists (B "1"), x78. repeat split.
  - exists c'. split; [exact H1|].
    apply (H3 [B "<b/>"] []); [repeat constructor; vm_compute; reflexivity | reflexivity].
Defined.

(** X5: in 1.1 mode an empty message is written as a chunk of size 0
    followed by the end-of-chunks marker, and the reader takes each of the
    two as the end of a message: the one frame reads back as two empty
    messages, after which the bytes that followed it are next. *)
Theorem empty_message_reads_twice (o rest : bytes) (segs : chan) :
  chan_bytes segs = chunked_frame [] ++ rest ->
  exists f1 f2, read_async (mkFramer [] true segs o) = Some (f1, Ok [])
    /\ read_async f1 = Some (f2, Ok [])
    /\ chan_bytes (inbox f2) = rest /\ read_buffer f2 = [].
Proof.
  intros Hc.
  destruct (read_header_digits [x30] ([x0a; x23; x23; x0a] ++ rest) segs)
    as [c1 [H1 H2]]; [reflexivity | rewrite Hc; reflexivity|].
  destruct (read_header_end rest c1 H2) as [c2 [H3 H4]].
  exists (mkFramer [] true c1 o), (mkFramer [] true c2 o).
  unfold read_async. cbn [upgraded read_buffer inbox outbox].
  rewrite !chunk_loop_step, H1, H3. cbn. auto.
Qed.

Lemma empty_message_reads_twice_witness :
  exists f1 f2, read_async (mkFramer [] true [chunked_frame [] ++ B "z"] []) = Some (f1, Ok [])
    /\ read_async f1 = Some (f2, Ok [])
    /\ chan_bytes (inbox f2) = B "z" /\ read_buffer f2 = [].
Proof. apply empty_message_reads_twice. reflexivity. Defined.

(** ** [impl Display for Rpc] for every request *)

(** X6: [Display for Rpc] never panics: for [get-config] and [get] the
    unescaping of the serialized buffer always succeeds and gives the
    document with every text and attribute value written verbatim (not
    escaped); for the other operations the escaped buffer is written. *)
Theorem rpc_display_total (r : Rpc) :
  rpc_to_string r
  = Some (match operation r with
          | GetConfig _ _ _ | Get _ _ => plain (render true 0 (rpc_node r))
          | _ => buffer_of (render true 0 (rpc_node r))
          end).
Proof.
  destruct r as [mid xmlns op].
  destruct op as [| | |ds f w|f w| |]; try reflexivity;
    unfold rpc_to_string; cbn [operation]; apply unescape_buffer.
  - destruct ds as [| | |[|c u]];
    destruct f as [[ft [|b t]]|]; destruct w as [[wx []]|]; reflexivity.
  - destruct f as [[ft [|b t]]|]; destruct w as [[wx []]|]; reflexivity.
Qed.

(** ** [impl FromStr for WithDefaultsValue] *)

(** X7: parsing a with-defaults value compares the lowercased input with the
    four names; so, with ASCII lowercasing, each value's serialized name
    parses back to it, and any input in any case parses to the value whose
    name is its lowercase form.  Every other input fails with an [anyhow]
    error whose message quotes the input as given, not lowercased. *)
Theorem with_defaults_from_str_cases (to_lowercase : bytes -> bytes) :
  (forall s, forallb (fun b => (bv b <? 128)%N) s = true ->
             to_lowercase s = map ascii_lowercase s) ->
  (forall v, with_defaults_from_str to_lowercase (with_defaults_value_name v) = Ok v)
  /\ (forall s v, to_lowercase s = with_defaults_value_name v ->
                  with_defaults_from_str to_lowercase s = Ok v)
  /\ (forall s e, with_defaults_from_str to_lowercase s = Err e ->
        e = Anyhow (B "unknown with-defaults value: " ++ s)
        /\ forall v, to_lowercase s <> with_defaults_value_name v)
  /\ (forall s, (forall v, to_lowercase s <> with_defaults_value_name v) ->
        with_defaults_from_str to_lowercase s
        = Err (Anyhow (B "unknown with-defaults value: " ++ s))).
Proof.
  intros Hlow.
  assert (Hs : forall s v, to_lowercase s = with_defaults_value_name v ->
                           with_defaults_from_str to_lowercase s = Ok v).
  { intros s v E. unfold with_defaults_from_str. rewrite E. destruct v; reflexivity. }
  split; [|split; [exact Hs|split]].
  - intros v. apply Hs. rewrite Hlow by (destruct v; reflexivity).
    destruct v; reflexivity.
  - intros s e H. split.
    + unfold with_defaults_from_str in H.
      destruct (beq (to_lowercase s) _); [discriminate|].
      destruct (beq (to_lowercase s) _); [discriminate|].
      destruct (beq (to_lowercase s) _); [discriminate|].
      destruct (beq (to_lowercase s) _); [discriminate|].
      injection H as <-. reflexivity.
    + intros v E. rewrite (Hs s v E) in H. discriminate.
  - intros s Hn. unfold with_defaults_from_str.
    destruct (beq (to_lowercase s) (B "report-all")) eqn:E1;
      [apply beq_true in E1; destruct (Hn ReportAll E1)|].
    destruct (beq (to_lowercase s) (B "report-all-tagged")) eqn:E2;
      [apply beq_true in E2; destruct (Hn ReportAllTagged E2)|].
    destruct (beq (to_lowercase s) (B "trim")) eqn:E3;
      [apply beq_true in E3; destruct (Hn Trim E3)|].
    destruct (beq (to_lowercase s) (B "explicit")) eqn:E4;
      [apply beq_true in E4; destruct (Hn Explicit E4)|].
    reflexivity.
Qed.

Lemma with_defaults_from_str_cases_witness :
  with_defaults_from_str (map ascii_lowercase) (B "report-all-tagged") = Ok ReportAllTagged
  /\ with_defaults_from_str (map ascii_lowercase) (B "TRIM") = Ok Trim
  /\ with_defaults_from_str (map ascii_lowercase) (B "Foo")
     = Err (Anyhow (B "unknown with-defaults value: " ++ B "Foo")).
Proof.
  split; [|split].
  - refine (proj1 (with_defaults_from_str_cases (map ascii_lowercase) _) ReportAllTagged).
    intros s _. reflexivity.
  - refine (proj1 (proj2 (with_defaults_from_str_cases (map ascii_lowercase) _))
              (B "TRIM") Trim _); [intros s _; reflexivity | reflexivity].
  - refine (proj2 (proj2 (proj2 (with_defaults_from_str_cases (map ascii_lowercase) _)))
              (B "Foo") _); [intros s _; reflexivity|].
    intros v; destruct v; vm_compute; discriminate.
Defined.

(** ** Decoded replies: [get_message_id], [is_ok] and the errors *)

Lemma traverse_length {A C : Type} (f : A -> option C) (l : list A) (l' : list C) :
  traverse f l = Some l' -> length l' = length l.
Proof.
  revert l'. induction l as [|a l IH]; intros l' H; cbn [traverse] in H.
  - injection H as <-. reflexivity.
  - destruct (f a); [|discriminate]. destruct (traverse f l) as [cs|]; [|discriminate].
    injection H as <-. cbn. f_equal. apply IH. reflexivity.
Qed.

Lemma decode_rpc_reply_inv (x : xml) (r : RpcReply) :
  decode_rpc_reply x = Some r ->
  attr (B "message-id") x = Some (message_id r)
  /\ optional (field (B "ok") (kids_of x)) unit_of = Some (ok r)
  /\ match rpc_error r with
     | None => List.filter (named (B "rpc-error")) (kids_of x) = []
     | Some es => traverse decode_error (List.filter (named (B "rpc-error")) (kids_of x))
                  = Some es
     end.
Proof.
  intros H. destruct x as [n a ks|t]; [|discriminate]. cbn [kids_of].
  unfold decode_rpc_reply in H.
  destruct (attr (B "message-id") (Elem n a ks)) as [mid|]; [|discriminate].
  destruct (seq_field (B "rpc-error") ks) as [errs|] eqn:E; [|discriminate].
  destruct (optional (field (B "ok") ks) unit_of) as [okv|]; [|discriminate].
  unfold seq_field in E.
  destruct errs as [xs|].
  - destruct (traverse decode_error xs) as [es|] eqn:T; [|discriminate].
    injection H as <-. cbn [message_id ok rpc_error]. repeat split.
    destruct (List.filter (named (B "rpc-error")) ks); [discriminate|].
    destruct (Nat.leb _ 1); [|discriminate]. injection E as <-. exact T.
  - injection H as <-. cbn [message_id ok rpc_error]. repeat split.
    destruct (List.filter (named (B "rpc-error")) ks); [reflexivity|].
    destruct (Nat.leb _ 1); discriminate.
Qed.

(** X8: a reply element without a [message-id] attribute does not decode;
    for a decoded reply [r], [get_message_id] is that attribute, [is_ok r]
    holds iff the element has exactly one [ok] child and no [rpc-error]
    child, and the error list has one entry per [rpc-error] child. *)
Theorem decode_rpc_reply_fields :
  (forall x, attr (B "message-id") x = None -> decode_rpc_reply x = None)
  /\ (forall x r, decode_rpc_reply x = Some r ->
        attr (B "message-id") x = Some (message_id r)
        /\ (is_ok r = true <->
            (exists y, List.filter (named (B "ok")) (kids_of x) = [y])
            /\ List.filter (named (B "rpc-error")) (kids_of x) = [])
        /\ (forall es, rpc_error r = Some es ->
              length es = length (List.filter (named (B "rpc-error")) (kids_of x)))).
Proof.
  split.
  - intros [n a ks|t] H; [|reflexivity]. unfold decode_rpc_reply. rewrite H. reflexivity.
  - intros x r H. destruct (decode_rpc_reply_inv x r H) as (M & O & E).
    split; [exact M|]. split.
    + unfold is_ok. unfold optional, field in O.
      destruct (List.filter (named (B "ok")) (kids_of x)) as [|y [|z l]].
      * injection O as <-. split; [discriminate|]. intros [[y' Hy] _]. discriminate.
      * destruct (unit_of y) as [u|]; [|discriminate]. injection O as <-.
        destruct (rpc_error r) as [es|] eqn:Er.
        -- split; [discriminate|]. intros [_ Hn].
           pose proof (has_errors_decoded x r H) as Hh. unfold has_errors in Hh.
           rewrite Er in Hh. rewrite existsb_filter, Hn in Hh. destruct Hh as [Hh _].
           discriminate (Hh eq_refl).
        -- split; [intros _; split; [exists y; reflexivity | exact E] | reflexivity].
      * discriminate.
    + intros es Hes. rewrite Hes in E. apply (traverse_length _ _ _ E).
Qed.

Lemma decode_rpc_reply_fields_witness :
  attr (B "message-id") (Elem (B "rpc-reply") [] []) = None
  /\ decode_rpc_reply (Elem (B "rpc-reply") [] []) = None
  /\ length [sample_error; sample_error]
     = length (List.filter (named (B "rpc-error"))
                 (kids_of (sample_reply [sample_rpc_error; sample_rpc_error]))).
Proof.
  split; [reflexivity|]. split.
  - apply (proj1 decode_rpc_reply_fields). reflexivity.
  - exact (proj2 (proj2 (proj2 decode_rpc_reply_fields
             (sample_reply [sample_rpc_error; sample_rpc_error])
             (mkRpcReply (B "101") (Some [sample_error; sample_error]) None) eq_refl))
             _ eq_refl).
Defined.

(** ** The session's invariants *)

Lemma run_rpc_transport (parse_xml : bytes -> option xml) (conn : Connection) (rpc : Rpc)
  (conn' : Connection) (r : result bytes) :
  run_rpc parse_xml conn rpc = Some (conn', r) ->
  exists f, conn' = with_transport conn f /\ upgraded f = upgraded (transport conn).
Proof.
  unfold run_rpc. cbv zeta. destruct (rpc_to_string rpc) as [req|]; [|discriminate].
  destruct (write_and_receive (transport conn) req) as [[f x]|] eqn:W; [|discriminate].
  destruct (write_and_receive_keeps _ _ _ _ W) as [U _].
  intros H. exists f. split; [|exact U].
  destruct x as [resp|e]; [|injection H as <- _; reflexivity].
  destruct (negb (skip_serializing conn)); [|injection H as <- _; reflexivity].
  destruct (from_str_reply parse_xml resp) as [reply|e]; [|injection H as <- _; reflexivity].
  destruct (has_errors reply); injection H as <- _; reflexivity.
Qed.

Lemma interrupted_keeps (f f1 : Framer) :
  interrupted f f1 -> upgraded f1 = upgraded f /\ outbox f1 = outbox f.
Proof.
  intros H. inversion H as [p q c' E| f2 resp R]; subst.
  - split; reflexivity.
  - exact (read_async_keeps _ _ _ R).
Qed.

Lemma notification_loop_keeps (f f' : Framer) (sent : list bytes) (r : result unit) :
  notification_loop f f' sent r -> upgraded f' = upgraded f.
Proof.
  induction 1 as [f f1 f' resp sent r R _ IH| f f1 resp R| f f1 e R| f f1 r I _].
  - rewrite IH. exact (proj1 (read_async_keeps _ _ _ R)).
  - exact (proj1 (read_async_keeps _ _ _ R)).
  - exact (proj1 (read_async_keeps _ _ _ R)).
  - exact (proj1 (interrupted_keeps _ _ I)).
Qed.

Lemma step_keeps (parse_xml : bytes -> option xml) (conn conn' : Connection) (op : Op) :
  step parse_xml conn op conn' ->
  session_id conn' = session_id conn
  /\ upgraded (transport conn') = upgraded (transport conn)
  /\ (skip_serializing conn = true -> skip_serializing conn' = true).
Proof.
  intros Hs. inversion Hs as [c0 c1 mid c r E| c0 c1 mid s t r sent N| c0]; subst.
  - rewrite call_as_run_rpc in E.
    destruct (run_rpc_transport _ _ _ _ _ E) as [f [-> U]].
    destruct (closes c); cbn; auto.
  - inversion N as [c2 e E| c2 resp f sent' r' E L]; subst;
      destruct (run_rpc_transport _ _ _ _ _ E) as [f1 [-> U]].
    + cbn. auto.
    + pose proof (notification_loop_keeps _ _ _ _ L) as U2. cbn in U2 |- *.
      rewrite U2, U. auto.
  - cbn. auto.
Qed.

(** X9: once a session is set up, no sequence of operations (calls,
    notification subscriptions with their notification loop, however it
    ends, and [set_skip_serializing]) changes its session id or its framing
    mode, and once reply parsing is skipped it stays skipped. *)
Theorem run_ops_invariants (parse_xml : bytes -> option xml) (conn : Connection)
  (ops : list Op) (conn' : Connection) :
  run_ops parse_xml conn ops conn' ->
  session_id conn' = session_id conn
  /\ upgraded (transport conn') = upgraded (transport conn)
  /\ (skip_serializing conn = true -> skip_serializing conn' = true).
Proof.
  induction 1 as [c|c c1 c' op ops S _ IH]; [auto|].
  destruct (step_keeps _ _ _ _ S) as (S1 & U1 & K1).
  destruct IH as (S2 & U2 & K2).
  rewrite S2, U2, S1, U1. auto.
Qed.

Lemma run_ops_invariants_witness :
  exists conn',
    run_ops (fun _ => Some (sample_reply [])) sample_conn
      [DoSetSkipSerializing; DoCall (B "1") CommitCall; DoNotification (B "2") None None]
      conn'
    /\ session_id conn' = None /\ upgraded (transport conn') = false.
Proof.
  assert (D : exists conn',
    run_ops (fun _ => Some (sample_reply [])) sample_conn
      [DoSetSkipSerializing; DoCall (B "1") CommitCall; DoNotification (B "2") None None]
      conn').
  { eexists.
    eapply Run_cons; [apply Step_skip|].
    eapply Run_cons; [eapply Step_call; reflexivity|].
    eapply Run_cons; [|apply Run_nil].
    eapply Step_notification. eapply Notif_loop; [reflexivity|].
    eapply NL_ctrl_c; [|left; reflexivity].
    apply (Int_reading _ [] []). reflexivity. }
  destruct D as [conn' D]. exists conn'. split; [exact D|].
  destruct (run_ops_invariants _ _ _ _ D) as (S & U & _).
  split; [exact S | exact U].
Defined.

(** X10: when the hello exchange of [Connection::new] fails (in particular
    when the server's hello does not parse or decode, a serializing error),
    no session is returned: the half-built connection is dropped, its
    [Drop] sends a [close-session] request on the transport and waits for
    the reply; [new] returns the hello's error once a reply is read, and
    does not return while none comes. *)
Theorem connection_new_fails (parse_xml : bytes -> option xml) (mid : bytes) (c : chan) :
  (forall conn1 e,
     hello parse_xml (mkConnection (new_framer c) None false false) = Some (conn1, Err e) ->
     exists req, rpc_to_string (new_with_operation mid CloseSession) = Some req
       /\ connection_new parse_xml mid c
          = match write_and_receive (transport conn1) req with
            | None => None
            | Some _ => Some (Err e)
            end)
  /\ (forall f resp,
        write_and_receive (new_framer c) (hello_to_string Hello_new) = Some (f, Ok resp) ->
        match parse_xml resp with Some x => decode_hello x = None | None => True end ->
        hello parse_xml (mkConnection (new_framer c) None false false)
        = Some (mkConnection f None false false, Err SerializingFailure)).
Proof.
  split.
  - intros conn1 e H. unfold connection_new. rewrite H.
    assert (Hc : is_closed conn1 = false).
    { unfold hello in H. cbn [transport] in H.
      destruct (write_and_receive _ _) as [[f [resp|e1]]|]; [|injection H as <- _; reflexivity
                                                            |discriminate].
      destruct (from_str_hello parse_xml resp) as [h|e1];
        injection H as <- _; reflexivity. }
    assert (R : exists req, rpc_to_string (new_with_operation mid CloseSession) = Some req)
      by (eexists; reflexivity).
    destruct R as [req R]. exists req. split; [exact R|].
    unfold drop. rewrite Hc. cbn [negb]. unfold call, run_rpc. rewrite R.
    cbn [transport set_closed].
    destruct (write_and_receive (transport conn1) req) as [[f [resp|e1]]|]; [|reflexivity
                                                                          |reflexivity].
    cbv zeta. destruct (negb _); [|reflexivity].
    destruct (from_str_reply parse_xml resp); [|reflexivity].
    destruct (has_errors _); reflexivity.
  - intros f resp H Hx. unfold hello. cbn [transport]. rewrite H.
    unfold from_str_hello. destruct (parse_xml resp) as [x|]; [|reflexivity].
    cbn [option_map]. rewrite Hx. reflexivity.
Qed.

Lemma connection_new_fails_witness :
  connection_new (fun _ => Some (Elem (B "hello") [] [])) (B "0") [B "<hello/>]]>]]>"] = None
  /\ connection_new (fun _ => Some (Elem (B "hello") [] [])) (B "0")
       [B "<hello/>]]>]]>"; B "<rpc-reply><ok/></rpc-reply>]]>]]>"]
     = Some (Err SerializingFailure).
Proof.
  split.
  - destruct (proj1 (connection_new_fails (fun _ => Some (Elem (B "hello") [] [])) (B "0")
                [B "<hello/>]]>]]>"]) _ _
                (proj2 (connection_new_fails (fun _ => Some (Elem (B "hello") [] [])) (B "0")
                   [B "<hello/>]]>]]>"]) _ (B "<hello/>") eq_refl eq_refl))
      as [req [R E]].
    rewrite E. injection R as <-. reflexivity.
  - destruct (proj1 (connection_new_fails (fun _ => Some (Elem (B "hello") [] [])) (B "0")
                [B "<hello/>]]>]]>"; B "<rpc-reply><ok/></rpc-reply>]]>]]>"]) _ _
                (proj2 (connection_new_fails (fun _ => Some (Elem (B "hello") [] [])) (B "0")
                   [B "<hello/>]]>]]>"; B "<rpc-reply><ok/></rpc-reply>]]>]]>"]) _
                   (B "<hello/>") eq_refl eq_refl))
      as [req [R E]].
    rewrite E. injection R as <-. reflexivity.
Defined.

(** X11: dropping a session that is not closed yet writes a [close-session]
    request to its transport and leaves it marked closed, whatever the
    server answers. *)
Theorem drop_open_session (parse_xml : bytes -> option xml) (conn conn' : Connection)
  (mid : bytes) :
  is_closed conn = false -> drop parse_xml conn mid = Some conn' ->
  is_closed conn' = true
  /\ exists req, rpc_to_string (new_with_operation mid CloseSession) = Some req
       /\ outbox (transport conn')
          = outbox (transport conn) ++ framed (upgraded (transport conn)) req.
Proof.
  intros Hc H. unfold drop in H. rewrite Hc in H. cbn [negb] in H.
  destruct (call parse_xml conn mid CloseSessionCall) as [[c1 r]|] eqn:E; [|discriminate].
  injection H as <-.
  destruct (call_effect _ _ _ _ _ _ E) as (req & Hreq & C & O).
  split; [rewrite C; apply orb_true_r|]. exists req. split; [exact Hreq | exact O].
Qed.

Lemma drop_open_session_witness :
  exists conn', drop (fun _ => Some (sample_reply [])) sample_conn (B "9") = Some conn'
    /\ is_closed conn' = true.
Proof.
  eexists. split; [reflexivity|].
  refine (proj1 (drop_open_session (fun _ => Some (sample_reply [])) sample_conn _ (B "9")
                   eq_refl eq_refl)).
Defined.

(** ** Decoded hellos *)

(** X12: a decoded hello lists the texts of the [capability] children of its
    [capabilities] element, in order, and at least one: a server hello
    whose [capabilities] element has no [capability] child does not
    decode. *)
Theorem decode_hello_capabilities (x : xml) (h : Hello) :
  decode_hello x = Some h ->
  exists caps, field (B "capabilities") (kids_of x) = Some (Some caps)
    /\ traverse text_of (List.filter (named (B "capability")) (kids_of caps))
       = Some (capability h)
    /\ capability h <> [].
Proof.
  intros H. destruct x as [n a ks|t]; [|discriminate]. cbn [kids_of].
  unfold decode_hello in H.
  destruct (attr (B "xmlns") (Elem n a ks)) as [xmlns|]; [|discriminate].
  destruct (field (B "capabilities") ks) as [[caps|]|]; try discriminate.
  destruct (optional (field (B "session-id") ks) u64_of) as [sid|]; [|discriminate].
  exists caps. split; [reflexivity|].
  unfold seq_field in H.
  destruct (List.filter (named (B "capability")) (kids_of caps)) as [|c cs];
    [discriminate|].
  destruct (Nat.leb _ 1); [|discriminate].
  destruct (traverse text_of (c :: cs)) as [l|] eqn:T; [|discriminate].
  injection H as <-. cbn [capability]. split; [reflexivity|].
  intros E. subst l. cbn [traverse] in T.
  destruct (text_of c); [|discriminate]. destruct (traverse text_of cs); discriminate.
Qed.

Lemma decode_hello_capabilities_witness :
  exists caps, field (B "capabilities") (kids_of sample_server_hello) = Some (Some caps)
    /\ capability (mkHello NETCONF_URN [NETCONF_BASE_11_CAP] (Some 4%N)) <> [].
Proof.
  destruct (decode_hello_capabilities sample_server_hello
              (mkHello NETCONF_URN [NETCONF_BASE_11_CAP] (Some 4%N)) eq_refl)
    as [caps [A [_ C]]].
  exists caps. split; [exact A | exact C].
Defined.

(** ** [Filter::strip_slashes] undoes backslash escaping *)

Lemma strip_go_escaped (l : bytes) :
  strip_go (flat_map (fun c => if is_bs c then [x5c; x5c] else [c]) l) = Some l.
Proof.
  induction l as [|c l IH]; [reflexivity|]. cbn [flat_map].
  destruct (is_bs c) eqn:E; unfold is_bs in E.
  - apply Byte.byte_dec_bl in E. subst c. cbn [app strip_go].
    change (Byte.eqb x5c x5c) with true. cbv iota. rewrite IH. reflexivity.
  - cbn [app strip_go]. rewrite E, IH. reflexivity.
Qed.

(** X13: [Filter::subtree] undoes backslash escaping: a text [t] with each
    backslash doubled, if it has no leading or trailing whitespace, gives
    the filter whose text is [t] trimmed. *)
Theorem subtree_escaped (t : bytes) :
  let e := flat_map (fun c => if is_bs c then [x5c; x5c] else [c]) t in
  trim e = e ->
  strip_slashes e = Some t /\ subtree e = Some (mkFilter (B "subtree") (trim t)).
Proof.
  intros e He. unfold subtree, strip_slashes. rewrite He. unfold e.
  rewrite strip_go_escaped. split; reflexivity.
Qed.

Lemma subtree_escaped_witness :
  subtree (B "<a>x" ++ [x5c; x5c] ++ B "y</a>")
  = Some (mkFilter (B "subtree") (B "<a>x" ++ [x5c] ++ B "y</a>")).
Proof. exact (proj2 (subtree_escaped (B "<a>x" ++ [x5c] ++ B "y</a>") eq_refl)). Defined.
